(** * hpp::agimus::Discretization

    A shallow embedding of [src/discretization.cc]: the sampler that
    evaluates a path at a time, runs forward kinematics and publishes the
    whole-body vectors and the per-frame and per-centre-of-mass quantities
    on ROS topics.

    The embedding keeps the member names of the C++ class.  Member
    functions are computations in a small monad that threads the object
    state, raises C++ exceptions and records the calls made to the
    transport layer and to the mutex. *)

From Stdlib Require Import String List ZArith Lia Bool Arith.
Import ListNotations.

Set Implicit Arguments.

(** ** Enumerations and plain data *)

(** Modelled from the spec: [ComputationOption] is declared in the header
    [hpp/agimus/discretization.hh], which is not part of the sources at
    hand.  The spec describes a bitmask over exactly three bits with a
    fourth named value equal to Position|Derivative; the three bits are
    taken here as the three lowest ones.  The enum is an [int] as far as
    [|] and [&] are concerned. *)
Definition ComputationOption := Z.
Definition Position : ComputationOption := 1%Z.
Definition Derivative : ComputationOption := 2%Z.
Definition Acceleration : ComputationOption := 4%Z.
Definition PositionAndDerivative : ComputationOption :=
  Z.lor Position Derivative.

(** [option & flag] used as a C++ condition. *)
Definition has_option (option flag : ComputationOption) : bool :=
  negb (Z.land option flag =? 0)%Z.

(** The flags of [hpp::pinocchio::Computation_t] that the file passes to
    [CenterOfMassComputation::compute]. *)
Inductive Computation_t :=
| pinocchio_COM
| pinocchio_VELOCITY
| pinocchio_COMPUTE_ALL.

(** [hpp::pinocchio::LiegroupSpace], up to [operator==]: the four spaces
    the file compares with, and the others. *)
Inductive LiegroupSpace :=
| LiegroupSpace_SE3
| LiegroupSpace_R3xSO3
| LiegroupSpace_SE2
| LiegroupSpace_R2xSO2
| LiegroupSpace_Rn (n : nat)
| LiegroupSpace_SO2
| LiegroupSpace_SO3.

Definition LiegroupSpace_eqb (a b : LiegroupSpace) : bool :=
  match a, b with
  | LiegroupSpace_SE3, LiegroupSpace_SE3 => true
  | LiegroupSpace_R3xSO3, LiegroupSpace_R3xSO3 => true
  | LiegroupSpace_SE2, LiegroupSpace_SE2 => true
  | LiegroupSpace_R2xSO2, LiegroupSpace_R2xSO2 => true
  | LiegroupSpace_Rn n, LiegroupSpace_Rn m => Nat.eqb n m
  | LiegroupSpace_SO2, LiegroupSpace_SO2 => true
  | LiegroupSpace_SO3, LiegroupSpace_SO3 => true
  | _, _ => false
  end.

(** What [setJointNames] reads of a [core::JointPtr_t]. *)
Module Joint.
Record t := Build {
  configurationSpace : LiegroupSpace;
  rankInConfiguration : nat;
  configSize : nat;
  rankInVelocity : nat;
  numberDof : nat
}.
End Joint.

(** C++ exceptions thrown by the file. *)
Inductive exception :=
| logic_error (what : string)
| runtime_error (what : string).

(** A [ros::Publisher]: default constructed (or shut down), or returned by
    [NodeHandle::advertise] for a topic. *)
Inductive Publisher :=
| Publisher_invalid
| Publisher_on (topic : string).

Inductive NodeHandle := NodeHandle_new.

Definition FrameIndex := nat.

(** A [CenterOfMassComputationPtr_t] is compared by address. *)
Definition CenterOfMassComputationPtr_t := nat.

(** ** Row views *)

(** Modelled from the spec: [Eigen::RowBlockIndices] comes from
    hpp-constraints and is not part of the sources at hand.  Following
    sections 3 and 4.1 of the spec, a view is the ordered list of the
    [(offset, length)] ranges that were added, its size is the total
    selected length, finalizing marks the view as ready, and extraction
    gathers the selected rows in the order the ranges were added. *)
Module RowBlockIndices.
Record t := Build {
  rows : list (nat * nat);
  finalized : bool
}.

Definition empty : t := Build [] false.

Definition addRow (r : t) (row nrows : nat) : t :=
  Build (rows r ++ [(row, nrows)]) (finalized r).

Definition updateRows (r : t) : t := Build (rows r) true.

Definition cardinal (l : list (nat * nat)) : nat :=
  fold_right (fun seg acc => snd seg + acc) 0 l.

Definition nbIndices (r : t) : nat := cardinal (rows r).
End RowBlockIndices.

(** ** The numeric and kinematic collaborators *)

(** [value_type] with the operations the file needs from it. *)
Class Scalar := {
  value_type : Type;
  zero : value_type;
  add : value_type -> value_type -> value_type;
  mul : value_type -> value_type -> value_type
}.

Section Vectors.
Context {S : Scalar}.

Definition vector_t := list value_type.
Definition vector3_t := (value_type * value_type * value_type)%type.

Definition vector3_data (v : vector3_t) : list value_type :=
  let '(x, y, z) := v in [x; y; z].

(** [v.segment (row, nrows)]; a row outside [v] reads as [zero] here
    (Eigen asserts on it). *)
Definition segment (v : vector_t) (row nrows : nat) : vector_t :=
  map (fun i => nth i v zero) (seq row nrows).

(** [view.rview (v)] evaluated: the selected rows, compacted. *)
Definition rview (r : RowBlockIndices.t) (v : vector_t) : vector_t :=
  flat_map (fun seg => segment v (fst seg) (snd seg))
           (RowBlockIndices.rows r).

(** [std::vector<double>::resize]: keeps the leading elements and
    value-initializes the new ones. *)
Definition std_resize (data : list value_type) (n : nat) : list value_type :=
  firstn n data ++ repeat zero (n - length data).

(** [Eigen::Map<vector_t> (data + off, length src) = src]. *)
Definition Map_assign (data : list value_type) (off : nat)
  (src : list value_type) : list value_type :=
  firstn off data ++ src ++ skipn (off + length src) data.

(** [Eigen::Map<vector_t> (data, n).setZero ()]. *)
Definition Map_setZero (data : list value_type) (n : nat) : list value_type :=
  Map_assign data 0 (repeat zero n).

(** [Eigen::VectorXd::resize]: a no-op when the size is already right;
    otherwise fresh storage, whose content the callee overwrites. *)
Definition Eigen_resize (v : vector_t) (n : nat) : vector_t :=
  if Nat.eqb (length v) n then v else repeat zero n.

(** Row of a matrix times a vector. *)
Definition dot (row v : vector_t) : value_type :=
  fold_left (fun acc p => add acc (mul (fst p) (snd p))) (combine row v) zero.

(** A [ComJacobian_t] (3 rows) times a vector. *)
Definition ComJacobian_t := (vector_t * vector_t * vector_t)%type.

Definition ComJacobian_mul (J : ComJacobian_t) (v : vector_t) : vector3_t :=
  let '(r0, r1, r2) := J in (dot r0 v, dot r1 v, dot r2 v).

End Vectors.

(** A [pinocchio::SE3] over some type of rotation matrices. *)
Record SE3 {S : Scalar} (Matrix3 : Type) := Build_SE3 {
  translation : vector3_t;
  rotation : Matrix3
}.

(** What the file uses of pinocchio and hpp-pinocchio. *)
Class Pinocchio {S : Scalar} := {
  Matrix3 : Type;
  (** [R.eulerAngles (a0, a1, a2)] *)
  eulerAngles : Matrix3 -> nat -> nat -> nat -> vector3_t;
  (** [SE3::Quaternion q (R)], as (w, x, y, z) *)
  Quaternion : Matrix3 -> value_type * value_type * value_type * value_type;
  (** [hpp::pinocchio::DeviceData], which holds the [pinocchio::Data] *)
  DeviceData : Type;
  (** [data.oMi[i]] and [data.oMf[i]] *)
  oMi : DeviceData -> nat -> SE3 Matrix3;
  oMf : DeviceData -> FrameIndex -> SE3 Matrix3;
  (** [getFrameVelocity (model, data, index)], linear then angular *)
  getFrameVelocity : DeviceData -> FrameIndex -> vector3_t * vector3_t;
  (** [com->compute (d, flag)] *)
  com_compute :
    CenterOfMassComputationPtr_t -> DeviceData -> Computation_t -> DeviceData;
  (** [com->com (d)] *)
  com_com : CenterOfMassComputationPtr_t -> DeviceData -> vector3_t;
  (** [com->jacobian (d)] *)
  com_jacobian : CenterOfMassComputationPtr_t -> DeviceData -> ComJacobian_t
}.

(** ** Targets *)

(** [Discretization::FrameData]. *)
Module FrameData.
Record t := Build {
  index : FrameIndex;
  option : ComputationOption;
  pubQ : Publisher;
  pubV : Publisher
}.

(** The constructor [FrameData (index, option)]. *)
Definition make (i : FrameIndex) (o : ComputationOption) : t :=
  Build i o Publisher_invalid Publisher_invalid.
End FrameData.

(** [Discretization::COM]. *)
Module COM.
Record t := Build {
  com : CenterOfMassComputationPtr_t;
  option : ComputationOption;
  pubQ : Publisher;
  pubV : Publisher
}.

(** The constructor [COM (c, option)]. *)
Definition make (c : CenterOfMassComputationPtr_t) (o : ComputationOption)
  : t :=
  Build c o Publisher_invalid Publisher_invalid.
End COM.

(** ** Messages and recorded calls *)

Inductive Message {S : Scalar} :=
| Vector (data : list value_type)
| Transform (translation : vector3_t)
    (rotation : value_type * value_type * value_type * value_type)
| Vector3 (x y z : value_type).

(** The calls that leave the object: on the mutex, on the node handle and
    on publishers. *)
Inductive Event {S : Scalar} :=
| Lock
| Unlock
| RosInit (name : string) (anonymous : bool)
| Advertise (topic : string) (queue_size : N) (latch : bool)
| Publish (pub : Publisher) (msg : Message)
| Shutdown (pub : Publisher).

Definition is_Publish {S : Scalar} (e : Event) : bool :=
  match e with Publish _ _ => true | _ => false end.

Definition is_Lock {S : Scalar} (e : Event) : bool :=
  match e with Lock => true | _ => false end.

(** How a member function ends: it returns a value or throws. *)
Inductive outcome (A : Type) :=
| Returned (a : A)
| Thrown (e : exception).
Arguments Thrown {A} e.
Arguments Returned {A} a.

(** ** The object *)

Section Object.
Context {S : Scalar} {P : Pinocchio}.

(** What the file uses of the [DevicePtr_t device_].  [forwardKinematics q v]
    is the data of a [DeviceSync] after [currentConfiguration (q)],
    [currentVelocity (v)] and [computeFramesForwardKinematics ()]. *)
Record Device := Build_Device {
  configSize : nat;
  numberDof : nat;
  getJointByName : string -> Joint.t;
  existFrame : string -> bool;
  getFrameId : string -> FrameIndex;
  forwardKinematics : vector_t -> vector_t -> DeviceData
}.

(** What the file uses of a [core::PathPtr_t]: [eval (q, t)] fills [q] and
    tells whether it could, [derivative (v, t, order)] fills [v]. *)
Record Path := Build_Path {
  eval : vector_t -> value_type -> vector_t * bool;
  derivative : vector_t -> value_type -> nat -> vector_t
}.

Record Discretization := Build_Discretization {
  device_ : Device;
  path_ : option Path;
  q_ : vector_t;
  v_ : vector_t;
  a_ : vector_t;
  hasFreeflyer_ : bool;
  qView_ : RowBlockIndices.t;
  vView_ : RowBlockIndices.t;
  frames_ : list FrameData.t;
  coms_ : list COM.t;
  handle_ : option NodeHandle;
  topicPrefix_ : string;
  pubQ : Publisher;
  pubV : Publisher;
  pubA : Publisher
}.

Definition set_q_ (x : vector_t) (s : Discretization) : Discretization :=
  Build_Discretization (device_ s) (path_ s) x (v_ s) (a_ s)
    (hasFreeflyer_ s) (qView_ s) (vView_ s) (frames_ s) (coms_ s)
    (handle_ s) (topicPrefix_ s) (pubQ s) (pubV s) (pubA s).

Definition set_v_ (x : vector_t) (s : Discretization) : Discretization :=
  Build_Discretization (device_ s) (path_ s) (q_ s) x (a_ s)
    (hasFreeflyer_ s) (qView_ s) (vView_ s) (frames_ s) (coms_ s)
    (handle_ s) (topicPrefix_ s) (pubQ s) (pubV s) (pubA s).

Definition set_a_ (x : vector_t) (s : Discretization) : Discretization :=
  Build_Discretization (device_ s) (path_ s) (q_ s) (v_ s) x
    (hasFreeflyer_ s) (qView_ s) (vView_ s) (frames_ s) (coms_ s)
    (handle_ s) (topicPrefix_ s) (pubQ s) (pubV s) (pubA s).

Definition set_hasFreeflyer_ (x : bool) (s : Discretization)
  : Discretization :=
  Build_Discretization (device_ s) (path_ s) (q_ s) (v_ s) (a_ s)
    x (qView_ s) (vView_ s) (frames_ s) (coms_ s)
    (handle_ s) (topicPrefix_ s) (pubQ s) (pubV s) (pubA s).

Definition set_qView_ (x : RowBlockIndices.t) (s : Discretization)
  : Discretization :=
  Build_Discretization (device_ s) (path_ s) (q_ s) (v_ s) (a_ s)
    (hasFreeflyer_ s) x (vView_ s) (frames_ s) (coms_ s)
    (handle_ s) (topicPrefix_ s) (pubQ s) (pubV s) (pubA s).

Definition set_vView_ (x : RowBlockIndices.t) (s : Discretization)
  : Discretization :=
  Build_Discretization (device_ s) (path_ s) (q_ s) (v_ s) (a_ s)
    (hasFreeflyer_ s) (qView_ s) x (frames_ s) (coms_ s)
    (handle_ s) (topicPrefix_ s) (pubQ s) (pubV s) (pubA s).

Definition set_frames_ (x : list FrameData.t) (s : Discretization)
  : Discretization :=
  Build_Discretization (device_ s) (path_ s) (q_ s) (v_ s) (a_ s)
    (hasFreeflyer_ s) (qView_ s) (vView_ s) x (coms_ s)
    (handle_ s) (topicPrefix_ s) (pubQ s) (pubV s) (pubA s).

Definition set_coms_ (x : list COM.t) (s : Discretization)
  : Discretization :=
  Build_Discretization (device_ s) (path_ s) (q_ s) (v_ s) (a_ s)
    (hasFreeflyer_ s) (qView_ s) (vView_ s) (frames_ s) x
    (handle_ s) (topicPrefix_ s) (pubQ s) (pubV s) (pubA s).

Definition set_handle_ (x : option NodeHandle) (s : Discretization)
  : Discretization :=
  Build_Discretization (device_ s) (path_ s) (q_ s) (v_ s) (a_ s)
    (hasFreeflyer_ s) (qView_ s) (vView_ s) (frames_ s) (coms_ s)
    x (topicPrefix_ s) (pubQ s) (pubV s) (pubA s).

Definition set_pubQ (x : Publisher) (s : Discretization) : Discretization :=
  Build_Discretization (device_ s) (path_ s) (q_ s) (v_ s) (a_ s)
    (hasFreeflyer_ s) (qView_ s) (vView_ s) (frames_ s) (coms_ s)
    (handle_ s) (topicPrefix_ s) x (pubV s) (pubA s).

Definition set_pubV (x : Publisher) (s : Discretization) : Discretization :=
  Build_Discretization (device_ s) (path_ s) (q_ s) (v_ s) (a_ s)
    (hasFreeflyer_ s) (qView_ s) (vView_ s) (frames_ s) (coms_ s)
    (handle_ s) (topicPrefix_ s) (pubQ s) x (pubA s).

Definition set_pubA (x : Publisher) (s : Discretization) : Discretization :=
  Build_Discretization (device_ s) (path_ s) (q_ s) (v_ s) (a_ s)
    (hasFreeflyer_ s) (qView_ s) (vView_ s) (frames_ s) (coms_ s)
    (handle_ s) (topicPrefix_ s) (pubQ s) (pubV s) x.

(** ** The monad of member functions

    A member function runs from a state of the object to an outcome (a
    returned value or a thrown exception), the state it leaves and the
    calls it made, in order. *)

Definition M (A : Type) : Type :=
  Discretization -> outcome A * Discretization * list Event.

Definition ret {A} (a : A) : M A := fun s => (Returned a, s, []).

Definition bind {A B} (m : M A) (f : A -> M B) : M B :=
  fun s =>
    match m s with
    | (Returned a, s1, t1) =>
        let '(r, s2, t2) := f a s1 in (r, s2, t1 ++ t2)
    | (Thrown e, s1, t1) => (Thrown e, s1, t1)
    end.

Definition throw {A} (e : exception) : M A := fun s => (Thrown e, s, []).

Definition get : M Discretization := fun s => (Returned s, s, []).

Definition modify (f : Discretization -> Discretization) : M unit :=
  fun s => (Returned tt, f s, []).

Definition emit (e : Event) : M unit := fun s => (Returned tt, s, [e]).

Definition emit_all (l : list Event) : M unit := fun s => (Returned tt, s, l).

(** [boost::mutex::scoped_lock lock (mutex_)] around the rest of the
    function body: the destructor unlocks on return and on a throw. *)
Definition scoped_lock {A} (body : M A) : M A :=
  fun s => let '(r, s1, t1) := body s in (r, s1, Lock :: t1 ++ [Unlock]).

Definition result {A} (x : outcome A * Discretization * list Event)
  : outcome A := fst (fst x).
Definition final {A} (x : outcome A * Discretization * list Event)
  : Discretization := snd (fst x).
Definition calls {A} (x : outcome A * Discretization * list Event)
  : list Event := snd x.

End Object.

Declare Scope member_scope.
Delimit Scope member_scope with member.
Notation "x <- m ;; k" := (bind m (fun x => k))
  (at level 61, m at next level, right associativity) : member_scope.
Notation "m ;; k" := (bind m (fun _ => k))
  (at level 61, right associativity) : member_scope.

(** ** Member functions *)

Section Members.
Context {S : Scalar} {P : Pinocchio}.
Local Open Scope member_scope.

Definition queue_size : N := 1000%N.

(** [nh.advertise <T> (topic, queue_size, false)]: the publisher and the
    call made. *)
Definition advertise (topic : string) : Publisher * list Event :=
  (Publisher_on topic, [Advertise topic queue_size false]).

(** [Discretization::COM::compute]: a [switch] on the value of [option]. *)
Definition COM_compute (c : COM.t) (d : DeviceData) : DeviceData :=
  let o := COM.option c in
  if (o =? Position)%Z then com_compute (COM.com c) d pinocchio_COM
  else if (o =? Derivative)%Z then com_compute (COM.com c) d pinocchio_VELOCITY
  else if (o =? Acceleration)%Z then d
  else if (o =? PositionAndDerivative)%Z
       then com_compute (COM.com c) d pinocchio_COMPUTE_ALL
  else d.

(** [Discretization::COM::initPublishers]. *)
Definition COM_initPublishers (prefix name : string) (c : COM.t)
  : COM.t * list Event :=
  let '(c1, t1) :=
    if has_option (COM.option c) Position then
      let '(p, t) := advertise (prefix ++ "com/" ++ name)%string in
      (COM.Build (COM.com c) (COM.option c) p (COM.pubV c), t)
    else (c, []) in
  let '(c2, t2) :=
    if has_option (COM.option c1) Derivative then
      let '(p, t) := advertise (prefix ++ "velocity/com/" ++ name)%string in
      (COM.Build (COM.com c1) (COM.option c1) (COM.pubQ c1) p, t)
    else (c1, []) in
  (c2, t1 ++ t2).

(** [Discretization::FrameData::initPublishers]. *)
Definition FrameData_initPublishers (prefix name : string) (f : FrameData.t)
  : FrameData.t * list Event :=
  let '(f1, t1) :=
    if has_option (FrameData.option f) Position then
      let '(p, t) := advertise (prefix ++ "op_frame/" ++ name)%string in
      (FrameData.Build (FrameData.index f) (FrameData.option f) p
         (FrameData.pubV f), t)
    else (f, []) in
  let '(f2, t2) :=
    if has_option (FrameData.option f1) Derivative then
      let '(p, t) :=
        advertise (prefix ++ "velocity/op_frame/" ++ name)%string in
      (FrameData.Build (FrameData.index f1) (FrameData.option f1)
         (FrameData.pubQ f1) p, t)
    else (f1, []) in
  (f2, t1 ++ t2).

Definition Vector3_of (v : vector3_t) : Message :=
  let '(x, y, z) := v in Vector3 x y z.

(** The whole-body position message of [compute]. *)
Definition position_data (s : Discretization) (d : DeviceData)
  : list value_type :=
  let sizeFreeflyer := if hasFreeflyer_ s then 6 else 0 in
  let data := std_resize [] (RowBlockIndices.nbIndices (qView_ s)
                             + sizeFreeflyer) in
  let data := Map_assign data sizeFreeflyer (rview (qView_ s) (q_ s)) in
  if hasFreeflyer_ s then
    let oMrj := oMi d 1 in
    let data := Map_assign data 0 (vector3_data (translation oMrj)) in
    Map_assign data 3 (vector3_data (eulerAngles (rotation oMrj) 2 1 0))
  else data.

(** The velocity message, built in the buffer left by the position. *)
Definition velocity_data (s : Discretization) (data : list value_type)
  : list value_type :=
  let sizeFreeflyer := if hasFreeflyer_ s then 6 else 0 in
  let data := std_resize data (RowBlockIndices.nbIndices (vView_ s)
                               + sizeFreeflyer) in
  let data := Map_assign data sizeFreeflyer (rview (vView_ s) (v_ s)) in
  Map_setZero data sizeFreeflyer.

(** The acceleration message, built in the buffer left by the velocity. *)
Definition acceleration_data (s : Discretization) (data : list value_type)
  : list value_type :=
  let sizeFreeflyer := if hasFreeflyer_ s then 6 else 0 in
  let data := Map_assign data sizeFreeflyer (rview (vView_ s) (a_ s)) in
  Map_setZero data sizeFreeflyer.

(** One turn of the loop of [compute] over [frames_]. *)
Definition publish_frame (d : DeviceData) (frame : FrameData.t)
  : list Event :=
  (if has_option (FrameData.option frame) Position then
     let oMf := oMf d (FrameData.index frame) in
     [Publish (FrameData.pubQ frame)
        (Transform (translation oMf) (Quaternion (rotation oMf)))]
   else [])
  ++
  (if has_option (FrameData.option frame) Derivative then
     let '(linear, angular) := getFrameVelocity d (FrameData.index frame) in
     [Publish (FrameData.pubV frame)
        (Vector (vector3_data linear ++ vector3_data angular))]
   else []).

(** One turn of the loop of [compute] over [coms_]: the data after
    [com.compute] and the messages published. *)
Definition publish_com (v : vector_t) (com : COM.t) (d : DeviceData)
  : DeviceData * list Event :=
  let d := COM_compute com d in
  (d,
   (if has_option (COM.option com) Position then
      [Publish (COM.pubQ com) (Vector3_of (com_com (COM.com com) d))]
    else [])
   ++
   (if has_option (COM.option com) Derivative then
      [Publish (COM.pubV com)
         (Vector3_of (ComJacobian_mul (com_jacobian (COM.com com) d) v))]
    else [])).

Fixpoint coms_loop (v : vector_t) (coms : list COM.t) (d : DeviceData)
  : DeviceData * list Event :=
  match coms with
  | [] => (d, [])
  | com :: rest =>
      let '(d1, t1) := publish_com v com d in
      let '(d2, t2) := coms_loop v rest d1 in
      (d2, t1 ++ t2)
  end.

(** [Discretization::compute].  The time counter macros only measure. *)
Definition compute (time : value_type) : M unit :=
  scoped_lock (
    s <- get ;;
    match path_ s with
    | None => throw (logic_error "Path is not set")
    | Some path =>
        modify (fun s => set_q_ (Eigen_resize (q_ s) (configSize (device_ s))) s) ;;
        modify (fun s => set_v_ (Eigen_resize (v_ s) (numberDof (device_ s))) s) ;;
        modify (fun s => set_a_ (Eigen_resize (a_ s) (numberDof (device_ s))) s) ;;
        s <- get ;;
        let '(q, success) := eval path (q_ s) time in
        modify (set_q_ q) ;;
        if negb success
        then throw (runtime_error "Could not evaluate the path")
        else
          modify (fun s => set_v_ (derivative path (v_ s) time 1) s) ;;
          modify (fun s => set_a_ (derivative path (a_ s) time 2) s) ;;
          s <- get ;;
          let d := forwardKinematics (device_ s) (q_ s) (v_ s) in
          let qdata := position_data s d in
          emit (Publish (pubQ s) (Vector qdata)) ;;
          let vdata := velocity_data s qdata in
          emit (Publish (pubV s) (Vector vdata)) ;;
          let adata := acceleration_data s vdata in
          emit (Publish (pubA s) (Vector adata)) ;;
          emit_all (flat_map (publish_frame d) (frames_ s)) ;;
          emit_all (snd (coms_loop (v_ s) (coms_ s) d))
    end).

(** The loop of [addCenterOfMass] over [coms_]: [None] when it runs to
    the end, else the list after the merge and the calls made. *)
Fixpoint addCenterOfMass_loop (prefix name : string)
  (c : CenterOfMassComputationPtr_t) (option : ComputationOption)
  (coms : list COM.t) : Datatypes.option (list COM.t * list Event) :=
  match coms with
  | [] => None
  | x :: rest =>
      if Nat.eqb (COM.com x) c then
        let x := COM.Build (COM.com x) (Z.lor (COM.option x) option)
                   (COM.pubQ x) (COM.pubV x) in
        let '(x, t) := COM_initPublishers prefix name x in
        Some (x :: rest, t)
      else
        match addCenterOfMass_loop prefix name c option rest with
        | Some (rest, t) => Some (x :: rest, t)
        | None => None
        end
  end.

(** [Discretization::addCenterOfMass]. *)
Definition addCenterOfMass (name : string)
  (c : CenterOfMassComputationPtr_t) (option : ComputationOption) : M bool :=
  s <- get ;;
  match handle_ s with
  | None => throw (logic_error "Initialize ROS first")
  | Some _ =>
      match addCenterOfMass_loop (topicPrefix_ s) name c option (coms_ s) with
      | Some (coms, t) =>
          modify (set_coms_ coms) ;; emit_all t ;; ret true
      | None =>
          let '(back, t) :=
            COM_initPublishers (topicPrefix_ s) name (COM.make c option) in
          modify (set_coms_ (coms_ s ++ [back])) ;; emit_all t ;; ret true
      end
  end.

(** The loop of [addOperationalFrame] over [frames_]. *)
Fixpoint addOperationalFrame_loop (prefix name : string)
  (index : FrameIndex) (option : ComputationOption)
  (frames : list FrameData.t)
  : Datatypes.option (list FrameData.t * list Event) :=
  match frames with
  | [] => None
  | x :: rest =>
      if Nat.eqb (FrameData.index x) index then
        let x := FrameData.Build (FrameData.index x)
                   (Z.lor (FrameData.option x) option)
                   (FrameData.pubQ x) (FrameData.pubV x) in
        let '(x, t) := FrameData_initPublishers prefix name x in
        Some (x :: rest, t)
      else
        match addOperationalFrame_loop prefix name index option rest with
        | Some (rest, t) => Some (x :: rest, t)
        | None => None
        end
  end.

(** [Discretization::addOperationalFrame]. *)
Definition addOperationalFrame (name : string) (option : ComputationOption)
  : M bool :=
  s <- get ;;
  match handle_ s with
  | None => throw (logic_error "Initialize ROS first")
  | Some _ =>
      if negb (existFrame (device_ s) name) then ret false
      else
        let index := getFrameId (device_ s) name in
        match addOperationalFrame_loop (topicPrefix_ s) name index option
                (frames_ s) with
        | Some (frames, t) =>
            modify (set_frames_ frames) ;; emit_all t ;; ret true
        | None =>
            let '(back, t) :=
              FrameData_initPublishers (topicPrefix_ s) name
                (FrameData.make index option) in
            modify (set_frames_ (frames_ s ++ [back])) ;; emit_all t ;;
            ret true
        end
  end.

(** [Discretization::resetTopics]. *)
Definition resetTopics : M unit :=
  modify (set_frames_ []) ;;
  modify (set_coms_ []).

(** The test of [setJointNames] on the configuration space of a joint. *)
Definition is_floating_base (joint : Joint.t) : bool :=
  LiegroupSpace_eqb (Joint.configurationSpace joint) LiegroupSpace_SE3
  || LiegroupSpace_eqb (Joint.configurationSpace joint) LiegroupSpace_R3xSO3
  || LiegroupSpace_eqb (Joint.configurationSpace joint) LiegroupSpace_SE2
  || LiegroupSpace_eqb (Joint.configurationSpace joint) LiegroupSpace_R2xSO2.

(** One turn of the loop of [setJointNames]. *)
Definition setJointNames_step (s : Discretization) (name : string)
  : Discretization :=
  let joint := getJointByName (device_ s) name in
  if is_floating_base joint then set_hasFreeflyer_ true s
  else
    let s := set_qView_
               (RowBlockIndices.addRow (qView_ s)
                  (Joint.rankInConfiguration joint) (Joint.configSize joint))
               s in
    set_vView_
      (RowBlockIndices.addRow (vView_ s)
         (Joint.rankInVelocity joint) (Joint.numberDof joint))
      s.

(** [Discretization::setJointNames]. *)
Definition setJointNames (names : list string) : M unit :=
  modify (set_hasFreeflyer_ false) ;;
  modify (set_qView_ RowBlockIndices.empty) ;;
  modify (set_vView_ RowBlockIndices.empty) ;;
  modify (fun s => fold_left setJointNames_step names s) ;;
  modify (fun s => set_qView_ (RowBlockIndices.updateRows (qView_ s)) s) ;;
  modify (fun s => set_vView_ (RowBlockIndices.updateRows (vView_ s)) s).

(** [Discretization::initializeRosNode]; [isInitialized] is what
    [ros::isInitialized ()] answers when the function is entered. *)
Definition initializeRosNode (isInitialized : bool) (name : string)
  (anonymous : bool) : M bool :=
  (if negb isInitialized then emit (RosInit name anonymous) else ret tt) ;;
  s <- get ;;
  r <- match handle_ s with
       | None => modify (set_handle_ (Some NodeHandle_new)) ;; ret true
       | Some _ => ret false
       end ;;
  s <- get ;;
  (let '(p, t) := advertise (topicPrefix_ s ++ "position")%string in
   emit_all t ;; modify (set_pubQ p)) ;;
  (let '(p, t) := advertise (topicPrefix_ s ++ "velocity")%string in
   emit_all t ;; modify (set_pubV p)) ;;
  (let '(p, t) := advertise (topicPrefix_ s ++ "acceleration")%string in
   emit_all t ;; modify (set_pubA p)) ;;
  ret r.

(** [Discretization::shutdownRos], which the destructor calls. *)
Definition shutdownRos : M unit :=
  s <- get ;;
  match handle_ s with
  | None => ret tt
  | Some _ =>
      scoped_lock (
        resetTopics ;;
        s <- get ;;
        emit (Shutdown (pubQ s)) ;; modify (set_pubQ Publisher_invalid) ;;
        emit (Shutdown (pubV s)) ;; modify (set_pubV Publisher_invalid) ;;
        emit (Shutdown (pubA s)) ;; modify (set_pubA Publisher_invalid) ;;
        modify (set_handle_ None))
  end.

End Members.

(** ** Vocabulary of the properties

    Closed forms of what the member functions compute: the properties
    below relate the member functions to them. *)

Section Vocabulary.
Context {S : Scalar} {P : Pinocchio}.

(** The six scalars that stand for the floating base in the position
    message: translation, then Euler angles about Z, Y, X, of [oMi[1]]. *)
Definition freeflyer_prefix (d : DeviceData) : list value_type :=
  vector3_data (translation (oMi d 1))
  ++ vector3_data (eulerAngles (rotation (oMi d 1)) 2 1 0).

Definition sizeFreeflyer (s : Discretization) : nat :=
  if hasFreeflyer_ s then 6 else 0.

(** The state in which the path is evaluated: the three buffers have the
    sizes of the device. *)
Definition resized (s : Discretization) : Discretization :=
  set_a_ (Eigen_resize (a_ s) (numberDof (device_ s)))
    (set_v_ (Eigen_resize (v_ s) (numberDof (device_ s)))
       (set_q_ (Eigen_resize (q_ s) (configSize (device_ s))) s)).

(** The state after the path gave configuration, velocity and
    acceleration at [time]. *)
Definition sampled (path : Path) (time : value_type) (s : Discretization)
  : Discretization :=
  let s1 := resized s in
  let s2 := set_q_ (fst (eval path (q_ s1) time)) s1 in
  let s3 := set_v_ (derivative path (v_ s2) time 1) s2 in
  set_a_ (derivative path (a_ s3) time 2) s3.

(** The messages of a successful [compute], in order. *)
Definition published (s : Discretization) : list Event :=
  let d := forwardKinematics (device_ s) (q_ s) (v_ s) in
  let qdata := position_data s d in
  let vdata := velocity_data s qdata in
  let adata := acceleration_data s vdata in
  [Publish (pubQ s) (Vector qdata);
   Publish (pubV s) (Vector vdata);
   Publish (pubA s) (Vector adata)]
  ++ flat_map (publish_frame d) (frames_ s)
  ++ snd (coms_loop (v_ s) (coms_ s) d).

Definition q_range (j : Joint.t) : nat * nat :=
  (Joint.rankInConfiguration j, Joint.configSize j).

Definition v_range (j : Joint.t) : nat * nat :=
  (Joint.rankInVelocity j, Joint.numberDof j).

Definition not_floating_base (j : Joint.t) : bool :=
  negb (is_floating_base j).

(** The joints a list of names stands for, and those among them that go
    to the row views. *)
Definition joints_of (dev : Device) (names : list string) : list Joint.t :=
  map (getJointByName dev) names.

Definition selected (dev : Device) (names : list string) : list Joint.t :=
  filter not_floating_base (joints_of dev names).

(** The state [setJointNames] leaves, written out. *)
Definition with_joints (s : Discretization) (names : list string)
  : Discretization :=
  Build_Discretization (device_ s) (path_ s) (q_ s) (v_ s) (a_ s)
    (existsb is_floating_base (joints_of (device_ s) names))
    (RowBlockIndices.Build (map q_range (selected (device_ s) names)) true)
    (RowBlockIndices.Build (map v_range (selected (device_ s) names)) true)
    (frames_ s) (coms_ s) (handle_ s) (topicPrefix_ s)
    (pubQ s) (pubV s) (pubA s).

(** A frame target after [initPublishers]: one publisher per bit of the
    mode, the other publisher as it was. *)
Definition FrameData_advertised (prefix name : string) (f : FrameData.t)
  : FrameData.t :=
  FrameData.Build (FrameData.index f) (FrameData.option f)
    (if has_option (FrameData.option f) Position
     then Publisher_on (prefix ++ "op_frame/" ++ name)
     else FrameData.pubQ f)
    (if has_option (FrameData.option f) Derivative
     then Publisher_on (prefix ++ "velocity/op_frame/" ++ name)
     else FrameData.pubV f).

(** The frame target with index [index] widened by [option], the others
    as they are. *)
Fixpoint merged_frames (prefix name : string) (index : FrameIndex)
  (option : ComputationOption) (frames : list FrameData.t)
  : list FrameData.t :=
  match frames with
  | [] => []
  | x :: rest =>
      if Nat.eqb (FrameData.index x) index then
        FrameData_advertised prefix name
          (FrameData.Build (FrameData.index x)
             (Z.lor (FrameData.option x) option)
             (FrameData.pubQ x) (FrameData.pubV x)) :: rest
      else x :: merged_frames prefix name index option rest
  end.

Definition has_frame (index : FrameIndex) (frames : list FrameData.t)
  : bool :=
  existsb (fun f => Nat.eqb (FrameData.index f) index) frames.

(** The list of frame targets after a registration that goes through. *)
Definition registered_frames (prefix name : string) (index : FrameIndex)
  (option : ComputationOption) (frames : list FrameData.t)
  : list FrameData.t :=
  if has_frame index frames
  then merged_frames prefix name index option frames
  else frames
       ++ [FrameData_advertised prefix name (FrameData.make index option)].

(** A centre-of-mass target after [initPublishers], and the calls to
    [advertise] that [initPublishers] makes for a mode. *)
Definition COM_advertised (prefix name : string) (c : COM.t) : COM.t :=
  COM.Build (COM.com c) (COM.option c)
    (if has_option (COM.option c) Position
     then Publisher_on (prefix ++ "com/" ++ name)
     else COM.pubQ c)
    (if has_option (COM.option c) Derivative
     then Publisher_on (prefix ++ "velocity/com/" ++ name)
     else COM.pubV c).

Definition COM_advertisements (prefix name : string)
  (option : ComputationOption) : list Event :=
  (if has_option option Position
   then [Advertise (prefix ++ "com/" ++ name) queue_size false] else [])
  ++
  (if has_option option Derivative
   then [Advertise (prefix ++ "velocity/com/" ++ name) queue_size false]
   else []).

Definition has_com (c : CenterOfMassComputationPtr_t) (coms : list COM.t)
  : bool :=
  existsb (fun x => Nat.eqb (COM.com x) c) coms.

(** The first target with handle [c] widened by [option]. *)
Fixpoint merged_coms (prefix name : string)
  (c : CenterOfMassComputationPtr_t) (option : ComputationOption)
  (coms : list COM.t) : list COM.t :=
  match coms with
  | [] => []
  | x :: rest =>
      if Nat.eqb (COM.com x) c then
        COM_advertised prefix name
          (COM.Build (COM.com x) (Z.lor (COM.option x) option)
             (COM.pubQ x) (COM.pubV x)) :: rest
      else x :: merged_coms prefix name c option rest
  end.

(** The mode of the first target with handle [c], if there is one. *)
Fixpoint mode_of (c : CenterOfMassComputationPtr_t) (coms : list COM.t)
  : ComputationOption :=
  match coms with
  | [] => 0%Z
  | x :: rest =>
      if Nat.eqb (COM.com x) c then COM.option x else mode_of c rest
  end.

(** The targets and the calls of a registration. *)
Definition registered_coms (prefix name : string)
  (c : CenterOfMassComputationPtr_t) (option : ComputationOption)
  (coms : list COM.t) : list COM.t :=
  if has_com c coms
  then merged_coms prefix name c option coms
  else coms ++ [COM_advertised prefix name (COM.make c option)].

Definition registration_calls (prefix name : string)
  (c : CenterOfMassComputationPtr_t) (option : ComputationOption)
  (coms : list COM.t) : list Event :=
  if has_com c coms
  then COM_advertisements prefix name (Z.lor (mode_of c coms) option)
  else COM_advertisements prefix name option.

Definition is_Advertise (e : Event) : bool :=
  match e with Advertise _ _ _ => true | _ => false end.

Definition is_mutex_call (e : Event) : bool :=
  match e with Lock | Unlock => true | _ => false end.

(** Two callers at once: the calls of one and the calls of the other,
    each in its order, merged into one sequence. *)
Inductive interleaving
  : list Event -> list Event -> list Event -> Prop :=
| interleaving_nil : interleaving [] [] []
| interleaving_left e a b c :
    interleaving a b c -> interleaving (e :: a) b (e :: c)
| interleaving_right e a b c :
    interleaving a b c -> interleaving a (e :: b) (e :: c).

(** [boost::mutex]: a sequence of calls can happen when every [Lock] in
    it finds the mutex free and every [Unlock] finds it held. *)
Fixpoint admissible (held : bool) (l : list Event) : bool :=
  match l with
  | [] => true
  | Lock :: l => negb held && admissible true l
  | Unlock :: l => held && admissible false l
  | _ :: l => admissible held l
  end.

(** [COM::compute] as the spec words it (section 4.2, step 7), to be
    compared with [COM_compute]: position and jacobian are computed
    according to the Position and Derivative bits of the mode, the
    Acceleration bit being a no-op. *)
Definition COM_compute_by_bits (c : COM.t) (d : DeviceData) : DeviceData :=
  match has_option (COM.option c) Position,
        has_option (COM.option c) Derivative with
  | true, true => com_compute (COM.com c) d pinocchio_COMPUTE_ALL
  | true, false => com_compute (COM.com c) d pinocchio_COM
  | false, true => com_compute (COM.com c) d pinocchio_VELOCITY
  | false, false => d
  end.

(** Whether a publisher was returned by [advertise]. *)
Definition Publisher_valid (p : Publisher) : bool :=
  match p with Publisher_on _ => true | Publisher_invalid => false end.

(** The number of channels a target of a given mode publishes on. *)
Definition channels (option : ComputationOption) : nat :=
  (if has_option option Position then 1 else 0)
  + (if has_option option Derivative then 1 else 0).

(** A target holds an advertised publisher exactly for the Position and
    Derivative bits of its mode. *)
Definition frame_wired (f : FrameData.t) : Prop :=
  Publisher_valid (FrameData.pubQ f)
  = has_option (FrameData.option f) Position
  /\ Publisher_valid (FrameData.pubV f)
     = has_option (FrameData.option f) Derivative.

Definition com_wired (c : COM.t) : Prop :=
  Publisher_valid (COM.pubQ c) = has_option (COM.option c) Position
  /\ Publisher_valid (COM.pubV c) = has_option (COM.option c) Derivative.

(** What holds of the object between two calls. *)
Definition consistent (s : Discretization) : Prop :=
  NoDup (map FrameData.index (frames_ s))
  /\ NoDup (map COM.com (coms_ s))
  /\ Forall frame_wired (frames_ s)
  /\ Forall com_wired (coms_ s)
  /\ (handle_ s = None -> frames_ s = [] /\ coms_ s = [])
  /\ (handle_ s <> None ->
      Publisher_valid (pubQ s) = true
      /\ Publisher_valid (pubV s) = true
      /\ Publisher_valid (pubA s) = true).

(** The member functions of the file as calls on the object, and the
    state a sequence of calls leaves; a call that throws leaves the state
    it had reached. *)
Inductive Call :=
| Call_compute (time : value_type)
| Call_addCenterOfMass (name : string) (c : CenterOfMassComputationPtr_t)
    (option : ComputationOption)
| Call_addOperationalFrame (name : string) (option : ComputationOption)
| Call_resetTopics
| Call_setJointNames (names : list string)
| Call_initializeRosNode (isInitialized : bool) (name : string)
    (anonymous : bool)
| Call_shutdownRos.

Definition perform (s : Discretization) (c : Call) : Discretization :=
  match c with
  | Call_compute time => final (compute time s)
  | Call_addCenterOfMass name c option =>
      final (addCenterOfMass name c option s)
  | Call_addOperationalFrame name option =>
      final (addOperationalFrame name option s)
  | Call_resetTopics => final (resetTopics s)
  | Call_setJointNames names => final (setJointNames names s)
  | Call_initializeRosNode isInitialized name anonymous =>
      final (initializeRosNode isInitialized name anonymous s)
  | Call_shutdownRos => final (shutdownRos s)
  end.

Definition perform_all (l : list Call) (s : Discretization)
  : Discretization :=
  fold_left perform l s.

(** Whether a call publishes on an advertised publisher, when it
    publishes. *)
Definition on_advertised (e : Event) : bool :=
  match e with Publish p _ => Publisher_valid p | _ => true end.

(** The topics a sequence of calls advertises. *)
Definition advertised_topics (l : list Event) : list string :=
  flat_map (fun e => match e with Advertise t _ _ => [t] | _ => [] end) l.

(** Two states that differ at most in the three sample buffers. *)
Definition same_configuration (s s' : Discretization) : Prop :=
  device_ s' = device_ s /\ path_ s' = path_ s
  /\ hasFreeflyer_ s' = hasFreeflyer_ s
  /\ qView_ s' = qView_ s /\ vView_ s' = vView_ s
  /\ frames_ s' = frames_ s /\ coms_ s' = coms_ s
  /\ handle_ s' = handle_ s /\ topicPrefix_ s' = topicPrefix_ s
  /\ pubQ s' = pubQ s /\ pubV s' = pubV s /\ pubA s' = pubA s.

(** The calls to [advertise] that [FrameData::initPublishers] makes for
    a mode. *)
Definition FrameData_advertisements (prefix name : string)
  (option : ComputationOption) : list Event :=
  (if has_option option Position
   then [Advertise (prefix ++ "op_frame/" ++ name) queue_size false]
   else [])
  ++
  (if has_option option Derivative
   then [Advertise (prefix ++ "velocity/op_frame/" ++ name)
           queue_size false]
   else []).

(** The mode of the first frame target with index [index], if any. *)
Fixpoint frame_mode_of (index : FrameIndex) (frames : list FrameData.t)
  : ComputationOption :=
  match frames with
  | [] => 0%Z
  | x :: rest =>
      if Nat.eqb (FrameData.index x) index
      then FrameData.option x else frame_mode_of index rest
  end.

(** The mode a target has after a registration with [option]. *)
Definition widened (old option : ComputationOption) : ComputationOption :=
  Z.lor old option.

(** Two frame targets that [compute] cannot tell apart. *)
Definition same_output (f f' : FrameData.t) : Prop :=
  FrameData.index f' = FrameData.index f
  /\ FrameData.pubQ f' = FrameData.pubQ f
  /\ FrameData.pubV f' = FrameData.pubV f
  /\ has_option (FrameData.option f') Position
     = has_option (FrameData.option f) Position
  /\ has_option (FrameData.option f') Derivative
     = has_option (FrameData.option f) Derivative.

(** The six scalars that stand for the placement of joint [i] of the
    model: translation, then Euler angles about Z, Y, X. *)
Definition placement_prefix (d : DeviceData) (i : nat) : list value_type :=
  vector3_data (translation (oMi d i))
  ++ vector3_data (eulerAngles (rotation (oMi d i)) 2 1 0).

(** While there is a node handle, the three whole-body publishers are on
    the topics that [initializeRosNode] advertises. *)
Definition whole_body_channels (s : Discretization) : Prop :=
  handle_ s <> None ->
  pubQ s = Publisher_on (topicPrefix_ s ++ "position")
  /\ pubV s = Publisher_on (topicPrefix_ s ++ "velocity")
  /\ pubA s = Publisher_on (topicPrefix_ s ++ "acceleration").

End Vocabulary.

(** ** Concrete instances

    Integer scalars and a small device, used to run the member functions
    on explicit inputs. *)

Module Scenario.

#[export] Instance Z_Scalar : Scalar :=
  {| value_type := Z; zero := 0%Z; add := Z.add; mul := Z.mul |}.

(** Device data: the configuration and velocity given to forward
    kinematics, and what the last centre-of-mass computation left. *)
Record Data := Build_Data {
  data_q : list Z;
  data_v : list Z;
  data_com : Z * Z * Z;
  data_jacobian : list Z * list Z * list Z
}.

Definition sum_Z (l : list Z) : Z := fold_right Z.add 0%Z l.

Definition fresh_com (c : nat) (d : Data) : Z * Z * Z :=
  (Z.of_nat c, sum_Z (data_q d), 1%Z).

Definition fresh_jacobian (d : Data) : list Z * list Z * list Z :=
  (map (fun _ => 1%Z) (data_v d), map (fun _ => 2%Z) (data_v d),
   map (fun _ => 3%Z) (data_v d)).

#[export] Instance Z_Pinocchio : Pinocchio :=
  {| Matrix3 := Z;
     eulerAngles := fun R a0 a1 a2 =>
       (R + Z.of_nat a0, R + Z.of_nat a1, R + Z.of_nat a2)%Z;
     Quaternion := fun R => (1%Z, R, 0%Z, 0%Z);
     DeviceData := Data;
     oMi := fun d i =>
       Build_SE3 (Z.of_nat i, sum_Z (data_q d), 5%Z) (Z.of_nat i + 10)%Z;
     oMf := fun d i =>
       Build_SE3 (Z.of_nat i, sum_Z (data_q d), 6%Z) (Z.of_nat i + 20)%Z;
     getFrameVelocity := fun d i =>
       ((Z.of_nat i, sum_Z (data_v d), 0%Z), (0%Z, 0%Z, 1%Z));
     com_compute := fun c d flag =>
       match flag with
       | pinocchio_COM =>
           Build_Data (data_q d) (data_v d) (fresh_com c d) (data_jacobian d)
       | pinocchio_VELOCITY =>
           Build_Data (data_q d) (data_v d) (data_com d) (fresh_jacobian d)
       | pinocchio_COMPUTE_ALL =>
           Build_Data (data_q d) (data_v d) (fresh_com c d) (fresh_jacobian d)
       end;
     com_com := fun c d => data_com d;
     com_jacobian := fun c d => data_jacobian d |}.

(** A free-flyer followed by two joints of configuration size 1 and 2,
    and a planar base. *)
Definition root_joint : Joint.t := Joint.Build LiegroupSpace_SE3 0 7 0 6.
Definition arm_joint : Joint.t := Joint.Build (LiegroupSpace_Rn 1) 7 1 6 1.
Definition wrist_joint : Joint.t := Joint.Build (LiegroupSpace_Rn 2) 8 2 7 2.
Definition planar_joint : Joint.t := Joint.Build LiegroupSpace_SE2 10 4 9 3.

Definition device : Device :=
  {| configSize := 14;
     numberDof := 12;
     getJointByName := fun name =>
       if String.eqb name "root_joint" then root_joint
       else if String.eqb name "arm" then arm_joint
       else if String.eqb name "planar" then planar_joint
       else wrist_joint;
     existFrame := fun name =>
       String.eqb name "gripper" || String.eqb name "base";
     getFrameId := fun name => if String.eqb name "gripper" then 4 else 2;
     forwardKinematics := fun q v =>
       Build_Data q v (0, 0, 0)%Z ([], [], []) |}.

(** A path that can be evaluated for non-negative times only. *)
Definition path : Path :=
  {| eval := fun q t =>
       (map (fun i => (t + Z.of_nat i)%Z) (seq 0 (length q)), (0 <=? t)%Z);
     derivative := fun v t order =>
       map (fun i => (Z.of_nat order * Z.of_nat i)%Z) (seq 0 (length v)) |}.

(** The object as constructed, before [initializeRosNode]. *)
Definition fresh (p : Datatypes.option Path) : Discretization :=
  {| device_ := device; path_ := p; q_ := []; v_ := []; a_ := [];
     hasFreeflyer_ := false;
     qView_ := RowBlockIndices.empty; vView_ := RowBlockIndices.empty;
     frames_ := []; coms_ := []; handle_ := None; topicPrefix_ := "/hpp/";
     pubQ := Publisher_invalid; pubV := Publisher_invalid;
     pubA := Publisher_invalid |}.

(** The object after [initializeRosNode]. *)
Definition started (p : Datatypes.option Path) : Discretization :=
  final (initializeRosNode false "hpp" false (fresh p)).

(** Running member functions one after the other. *)
Definition after {A} (m : M A) (s : Discretization) : Discretization :=
  final (m s).

(** Started, with a path. *)
Definition ready : Discretization := started (Some path).

(** Started, with a path, the free-flyer and the two joints selected. *)
Definition whole_body : Discretization :=
  after (setJointNames ["root_joint"; "arm"; "wrist"]%string) ready.

(** One centre of mass registered for its position. *)
Definition com_P : Discretization :=
  after (addCenterOfMass "c" 7 Position) ready.

(** The same, then registered again for its acceleration. *)
Definition com_PA : Discretization :=
  after (addCenterOfMass "c" 7 Acceleration) com_P.

(** One centre of mass registered for its derivative, and then again for
    its acceleration. *)
Definition com_D : Discretization :=
  after (addCenterOfMass "c" 7 Derivative) ready.

Definition com_DA : Discretization :=
  after (addCenterOfMass "c" 7 Acceleration) com_D.

(** The index of each joint in the model of the device, in the order
    of the ranks: what [oMi] is indexed by. *)
Definition joint_id (name : string) : nat :=
  if String.eqb name "root_joint" then 1
  else if String.eqb name "arm" then 2
  else if String.eqb name "planar" then 4
  else 3.

(** The arm and the planar base selected: the only floating base named
    is joint 4 of the model. *)
Definition planar_base : Discretization :=
  after (setJointNames ["arm"; "planar"]%string) ready.

(** The whole body selected, then the transport shut down. *)
Definition stopped : Discretization := after shutdownRos whole_body.

(** A frame and a centre of mass registered. *)
Definition with_targets : Discretization :=
  after (addCenterOfMass "c" 7 Position)
    (after (addOperationalFrame "gripper" PositionAndDerivative) ready).

(** A sequence of calls on the object as constructed. *)
Definition session : list Call :=
  [Call_initializeRosNode false "hpp" false;
   Call_addOperationalFrame "gripper" Position;
   Call_addCenterOfMass "c" 7 Derivative;
   Call_compute 3%Z;
   Call_addOperationalFrame "gripper" Acceleration;
   Call_setJointNames ["root_joint"; "arm"]%string].

End Scenario.

(** * Properties *)

(** ** Lists, buffers and row views *)

Section BufferLemmas.
Context {S : Scalar}.

Lemma segment_length (v : vector_t) (row nrows : nat) :
  length (segment v row nrows) = nrows.
Proof.
  unfold segment. now rewrite length_map, length_seq.
Qed.

Lemma rview_length (r : RowBlockIndices.t) (v : vector_t) :
  length (rview r v) = RowBlockIndices.nbIndices r.
Proof.
  unfold rview, RowBlockIndices.nbIndices.
  induction (RowBlockIndices.rows r) as [|seg l IH]; simpl.
  - reflexivity.
  - now rewrite length_app, segment_length, IH.
Qed.

(** Inside the vector, a segment is the slice of the vector. *)
Lemma segment_slice (v : vector_t) (row nrows : nat) :
  row + nrows <= length v ->
  segment v row nrows = firstn nrows (skipn row v).
Proof.
  unfold segment. revert v row.
  induction nrows as [|n IH]; intros v row Hle; simpl.
  - reflexivity.
  - destruct (skipn row v) as [|x tl] eqn:Hsk.
    + assert (Hlen : length (skipn row v) = 0) by now rewrite Hsk.
      rewrite length_skipn in Hlen. lia.
    + simpl. f_equal.
      * rewrite <- (firstn_skipn row v) at 1.
        rewrite app_nth2; rewrite length_firstn;
          replace (Nat.min row (length v)) with row by lia; [|lia].
        rewrite Nat.sub_diag, Hsk. reflexivity.
      * rewrite IH by lia.
        replace (skipn (Datatypes.S row) v) with (skipn 1 (skipn row v)).
        -- now rewrite Hsk.
        -- rewrite skipn_skipn. reflexivity.
Qed.

Lemma firstn_repeat_le (A : Type) (x : A) (n m : nat) :
  n <= m -> firstn n (repeat x m) = repeat x n.
Proof.
  revert m. induction n as [|n IH]; intros m Hle; simpl.
  - reflexivity.
  - destruct m as [|m]; [lia|]. simpl. f_equal. apply IH. lia.
Qed.

Lemma std_resize_nil (n : nat) : std_resize [] n = repeat zero n.
Proof.
  unfold std_resize. rewrite firstn_nil. simpl. now rewrite Nat.sub_0_r.
Qed.

Lemma std_resize_length (data : list value_type) (n : nat) :
  length (std_resize data n) = n.
Proof.
  unfold std_resize. rewrite length_app, length_firstn, repeat_length. lia.
Qed.

(** Writing a block that reaches the end of the buffer keeps the part
    before the block. *)
Lemma Map_assign_tail (data src : list value_type) (off : nat) :
  length data = off + length src ->
  Map_assign data off src = firstn off data ++ src.
Proof.
  intros Hlen. unfold Map_assign.
  rewrite skipn_all2 by lia. now rewrite app_nil_r.
Qed.

(** Writing a block at the head of a buffer that starts with a block of
    that length replaces it. *)
Lemma Map_assign_head (old new rest : list value_type) :
  length old = length new ->
  Map_assign (old ++ rest) 0 new = new ++ rest.
Proof.
  intros Hlen. unfold Map_assign. simpl.
  rewrite <- Hlen, skipn_app, skipn_all, Nat.sub_diag. reflexivity.
Qed.

Lemma Map_assign_after (head old new : list value_type) (off : nat) :
  length head = off -> length old = length new ->
  Map_assign (head ++ old) off new = head ++ new.
Proof.
  intros Hh Hlen. rewrite Map_assign_tail.
  - rewrite firstn_app, firstn_all2 by lia.
    replace (off - length head) with 0 by lia. simpl. now rewrite app_nil_r.
  - rewrite length_app. lia.
Qed.

End BufferLemmas.

(** ** The whole-body messages *)

Section WholeBody.
Context {S : Scalar} {P : Pinocchio}.

Lemma freeflyer_prefix_length (d : DeviceData) :
  length (freeflyer_prefix d) = 6.
Proof.
  unfold freeflyer_prefix.
  destruct (translation (oMi d 1)) as [[x y] z].
  destruct (eulerAngles (rotation (oMi d 1)) 2 1 0) as [[a b] c].
  reflexivity.
Qed.

Lemma position_data_layout (s : Discretization) (d : DeviceData) :
  position_data s d =
  (if hasFreeflyer_ s then freeflyer_prefix d else [])
  ++ rview (qView_ s) (q_ s).
Proof.
  unfold position_data, freeflyer_prefix. cbv zeta.
  rewrite std_resize_nil.
  destruct (hasFreeflyer_ s).
  - rewrite Map_assign_tail with (off := 6)
      by (rewrite repeat_length, rview_length; lia).
    rewrite firstn_repeat_le by lia.
    destruct (translation (oMi d 1)) as [[x y] z].
    destruct (eulerAngles (rotation (oMi d 1)) 2 1 0) as [[a b] c].
    reflexivity.
  - rewrite Map_assign_tail
      by (rewrite repeat_length, rview_length; lia).
    reflexivity.
Qed.

Lemma velocity_data_layout (s : Discretization) (data : list value_type) :
  velocity_data s data =
  repeat zero (sizeFreeflyer s) ++ rview (vView_ s) (v_ s).
Proof.
  unfold velocity_data, Map_setZero. cbv zeta. fold (sizeFreeflyer s).
  rewrite Map_assign_tail with (off := sizeFreeflyer s)
    by (rewrite std_resize_length, rview_length; lia).
  apply Map_assign_head.
  rewrite length_firstn, std_resize_length, repeat_length. lia.
Qed.

Lemma acceleration_data_layout (s : Discretization) (old : vector_t) :
  length old = RowBlockIndices.nbIndices (vView_ s) ->
  acceleration_data s (repeat zero (sizeFreeflyer s) ++ old) =
  repeat zero (sizeFreeflyer s) ++ rview (vView_ s) (a_ s).
Proof.
  intros Hold. unfold acceleration_data, Map_setZero. cbv zeta.
  fold (sizeFreeflyer s).
  rewrite Map_assign_after with (off := sizeFreeflyer s)
    by (rewrite ?repeat_length, ?rview_length; auto).
  now apply Map_assign_head.
Qed.

(** ** [compute], step by step *)

Lemma compute_no_path (time : value_type) (s : Discretization) :
  path_ s = None ->
  compute time s =
  (Thrown (logic_error "Path is not set"), s, [Lock; Unlock]).
Proof.
  intros Hp. unfold compute, scoped_lock, bind, get. simpl.
  rewrite Hp. reflexivity.
Qed.

Lemma compute_eval_failed (time : value_type) (s : Discretization)
  (path : Path) :
  path_ s = Some path ->
  snd (eval path (q_ (resized s)) time) = false ->
  compute time s =
  (Thrown (runtime_error "Could not evaluate the path"),
   set_q_ (fst (eval path (q_ (resized s)) time)) (resized s),
   [Lock; Unlock]).
Proof.
  intros Hp Hev. unfold compute, scoped_lock, bind, get. simpl.
  rewrite Hp. simpl.
  unfold resized in Hev. simpl in Hev. revert Hev.
  destruct (eval path _ time) as [q success].
  simpl. intros ->. reflexivity.
Qed.

Lemma compute_success (time : value_type) (s : Discretization)
  (path : Path) :
  path_ s = Some path ->
  snd (eval path (q_ (resized s)) time) = true ->
  compute time s =
  (Returned tt, sampled path time s,
   Lock :: published (sampled path time s) ++ [Unlock]).
Proof.
  intros Hp Hev. unfold compute, scoped_lock, bind, get. simpl.
  rewrite Hp. simpl.
  unfold resized in Hev. simpl in Hev. revert Hev.
  unfold sampled, published, resized. simpl.
  destruct (eval path _ time) as [q success].
  simpl. intros ->. simpl. rewrite ?app_nil_r. reflexivity.
Qed.

End WholeBody.

(** ** Topics of the whole-body channels *)

Lemma append_inj_r (p a b : string) :
  (p ++ a)%string = (p ++ b)%string -> a = b.
Proof.
  induction p as [|c p IH]; simpl; intros H.
  - exact H.
  - injection H as H. now apply IH.
Qed.

Section Channels.
Context {S : Scalar} {P : Pinocchio}.

Lemma initializeRosNode_publishers (isInitialized : bool) (name : string)
  (anonymous : bool) (s : Discretization) :
  let s1 := final (initializeRosNode isInitialized name anonymous s) in
  pubQ s1 = Publisher_on (topicPrefix_ s ++ "position")
  /\ pubV s1 = Publisher_on (topicPrefix_ s ++ "velocity")
  /\ pubA s1 = Publisher_on (topicPrefix_ s ++ "acceleration")
  /\ handle_ s1 <> None.
Proof.
  unfold initializeRosNode, final, bind, get, emit, emit_all, modify, ret.
  destruct isInitialized; simpl;
    destruct (handle_ s) eqn:Hh; simpl; rewrite ?Hh;
    repeat split; discriminate.
Qed.

Lemma initializeRosNode_distinct (isInitialized : bool) (name : string)
  (anonymous : bool) (s : Discretization) :
  let s1 := final (initializeRosNode isInitialized name anonymous s) in
  pubQ s1 <> pubV s1 /\ pubQ s1 <> pubA s1 /\ pubV s1 <> pubA s1.
Proof.
  destruct (initializeRosNode_publishers isInitialized name anonymous s)
    as (HQ & HV & HA & _).
  cbv zeta. rewrite HQ, HV, HA.
  repeat split; intros H; injection H as H;
    apply append_inj_r in H; discriminate.
Qed.

End Channels.

(** ** Claims on [compute] *)

Section ComputeClaims.
Context {S : Scalar} {P : Pinocchio}.

(** C1.  [compute] without a path throws the logic error "Path is not
    set"; with a path that cannot be evaluated at the time it throws the
    runtime error "Could not evaluate the path"; and whenever [compute]
    throws, the only calls it made are the locking and unlocking of the
    mutex: nothing was published on any channel. *)
Theorem compute_failure_publishes_nothing
  (time : value_type) (s : Discretization) :
  (path_ s = None ->
   result (compute time s) = Thrown (logic_error "Path is not set"))
  /\ (forall path,
        path_ s = Some path ->
        snd (eval path (Eigen_resize (q_ s) (configSize (device_ s))) time)
        = false ->
        result (compute time s)
        = Thrown (runtime_error "Could not evaluate the path"))
  /\ (forall e,
        result (compute time s) = Thrown e ->
        calls (compute time s) = [Lock; Unlock]
        /\ filter is_Publish (calls (compute time s)) = []).
Proof.
  split; [|split].
  - intros Hp. now rewrite compute_no_path.
  - intros path Hp Hev. now rewrite (compute_eval_failed time s Hp).
  - intros e He.
    destruct (path_ s) as [path|] eqn:Hp.
    + destruct (snd (eval path (q_ (resized s)) time)) eqn:Hev.
      * rewrite (compute_success time s Hp Hev) in He. discriminate.
      * rewrite (compute_eval_failed time s Hp Hev). now split.
    + rewrite (compute_no_path time s Hp). now split.
Qed.

End ComputeClaims.

(** ** [setJointNames] *)

Section JointNames.
Context {S : Scalar} {P : Pinocchio}.

Lemma setJointNames_loop (names : list string) :
  forall s : Discretization,
    fold_left setJointNames_step names s =
    Build_Discretization (device_ s) (path_ s) (q_ s) (v_ s) (a_ s)
      (hasFreeflyer_ s
       || existsb is_floating_base (joints_of (device_ s) names))
      (RowBlockIndices.Build
         (RowBlockIndices.rows (qView_ s)
          ++ map q_range (selected (device_ s) names))
         (RowBlockIndices.finalized (qView_ s)))
      (RowBlockIndices.Build
         (RowBlockIndices.rows (vView_ s)
          ++ map v_range (selected (device_ s) names))
         (RowBlockIndices.finalized (vView_ s)))
      (frames_ s) (coms_ s) (handle_ s) (topicPrefix_ s)
      (pubQ s) (pubV s) (pubA s).
Proof.
  induction names as [|name names IH]; intros s.
  - destruct s as [dev pa q v a ff [qr qf] [vr vf] fr co ha tp pq pv pa'].
    simpl. now rewrite !app_nil_r, orb_false_r.
  - simpl fold_left. rewrite IH. clear IH.
    unfold setJointNames_step, selected, joints_of, not_floating_base.
    simpl map. simpl existsb. simpl filter.
    destruct (is_floating_base (getJointByName (device_ s) name)); simpl.
    + now rewrite orb_true_r.
    + now rewrite <- !app_assoc.
Qed.

Lemma setJointNames_eq (names : list string) (s : Discretization) :
  setJointNames names s = (Returned tt, with_joints s names, []).
Proof.
  unfold setJointNames, bind, modify. simpl.
  rewrite setJointNames_loop. reflexivity.
Qed.

Lemma cardinal_ranges (A : Type) (f : A -> nat * nat) (l : list A) :
  RowBlockIndices.cardinal (map f l) = list_sum (map (fun x => snd (f x)) l).
Proof.
  induction l as [|x l IH]; simpl; [reflexivity|]. now rewrite IH.
Qed.

Lemma selected_all (dev : Device) (names : list string) :
  existsb is_floating_base (joints_of dev names) = false ->
  selected dev names = joints_of dev names.
Proof.
  unfold selected, joints_of, not_floating_base.
  induction names as [|name names IH]; simpl; [reflexivity|].
  intros H. apply orb_false_elim in H as [Hx Hl].
  rewrite Hx. simpl. f_equal. now apply IH.
Qed.

Lemma is_floating_base_iff (j : Joint.t) :
  is_floating_base j = true <->
  Joint.configurationSpace j = LiegroupSpace_SE3
  \/ Joint.configurationSpace j = LiegroupSpace_R3xSO3
  \/ Joint.configurationSpace j = LiegroupSpace_SE2
  \/ Joint.configurationSpace j = LiegroupSpace_R2xSO2.
Proof.
  unfold is_floating_base.
  destruct (Joint.configurationSpace j); simpl; split; intros H;
    try discriminate; try reflexivity; auto;
    destruct H as [H|[H|[H|H]]]; discriminate.
Qed.

(** C4.  [setJointNames] returns, makes no call, and leaves a state whose
    flag and views depend on the names only: the flag tells whether some
    named joint has one of the four floating-base configuration spaces,
    and the two finalized views list, in the order of the names, the
    configuration range and the velocity range of the other joints;
    nothing else changes.  When no named joint is a floating base, the
    size of each view is the sum of the sizes of the joints, extraction
    concatenates the segments of the joints in the order of the names,
    and a segment that lies inside the vector is the slice of the vector
    at the rank of the joint. *)
Theorem setJointNames_row_views (names : list string) (s : Discretization) :
  let dev := device_ s in
  let joints := joints_of dev names in
  let s1 := final (setJointNames names s) in
  setJointNames names s = (Returned tt, with_joints s names, [])
  /\ (forall j,
        is_floating_base j = true <->
        Joint.configurationSpace j = LiegroupSpace_SE3
        \/ Joint.configurationSpace j = LiegroupSpace_R3xSO3
        \/ Joint.configurationSpace j = LiegroupSpace_SE2
        \/ Joint.configurationSpace j = LiegroupSpace_R2xSO2)
  /\ hasFreeflyer_ s1 = existsb is_floating_base joints
  /\ qView_ s1 =
     RowBlockIndices.Build
       (map q_range (filter not_floating_base joints)) true
  /\ vView_ s1 =
     RowBlockIndices.Build
       (map v_range (filter not_floating_base joints)) true
  /\ (existsb is_floating_base joints = false ->
      hasFreeflyer_ s1 = false
      /\ RowBlockIndices.nbIndices (qView_ s1)
         = list_sum (map Joint.configSize joints)
      /\ RowBlockIndices.nbIndices (vView_ s1)
         = list_sum (map Joint.numberDof joints)
      /\ (forall q : vector_t,
            rview (qView_ s1) q =
            flat_map (fun j => segment q (Joint.rankInConfiguration j)
                                 (Joint.configSize j)) joints)
      /\ (forall v : vector_t,
            rview (vView_ s1) v =
            flat_map (fun j => segment v (Joint.rankInVelocity j)
                                 (Joint.numberDof j)) joints)
      /\ (forall (q : vector_t) j,
            Joint.rankInConfiguration j + Joint.configSize j <= length q ->
            segment q (Joint.rankInConfiguration j) (Joint.configSize j)
            = firstn (Joint.configSize j)
                (skipn (Joint.rankInConfiguration j) q))
      /\ (forall (v : vector_t) j,
            Joint.rankInVelocity j + Joint.numberDof j <= length v ->
            segment v (Joint.rankInVelocity j) (Joint.numberDof j)
            = firstn (Joint.numberDof j) (skipn (Joint.rankInVelocity j) v))).
Proof.
  intros dev joints s1. unfold s1. rewrite setJointNames_eq.
  unfold final. simpl. fold dev. fold joints.
  split; [reflexivity|]. split; [apply is_floating_base_iff|].
  repeat split; try reflexivity.
  - exact H.
  - unfold RowBlockIndices.nbIndices. simpl.
    fold dev. rewrite (selected_all dev names H). fold joints.
    now rewrite cardinal_ranges.
  - unfold RowBlockIndices.nbIndices. simpl.
    fold dev. rewrite (selected_all dev names H). fold joints.
    now rewrite cardinal_ranges.
  - intros q. unfold rview. simpl.
    fold dev. rewrite (selected_all dev names H). fold joints.
    rewrite flat_map_concat_map, map_map, <- flat_map_concat_map.
    reflexivity.
  - intros v. unfold rview. simpl.
    fold dev. rewrite (selected_all dev names H). fold joints.
    rewrite flat_map_concat_map, map_map, <- flat_map_concat_map.
    reflexivity.
  - intros q j Hle. now apply segment_slice.
  - intros v j Hle. now apply segment_slice.
Qed.

End JointNames.

(** ** Modes *)

Lemma has_option_lor (a b flag : ComputationOption) :
  has_option (Z.lor a b) flag = has_option a flag || has_option b flag.
Proof.
  unfold has_option. rewrite Z.land_lor_distr_l.
  destruct (Z.eqb_spec (Z.land a flag) 0) as [Ha|Ha];
    destruct (Z.eqb_spec (Z.land b flag) 0) as [Hb|Hb];
    destruct (Z.eqb_spec (Z.lor (Z.land a flag) (Z.land b flag)) 0)
      as [Hab|Hab]; simpl; try reflexivity; exfalso.
  - apply Hab. apply Z.lor_eq_0_iff. now split.
  - apply Z.lor_eq_0_iff in Hab. now apply Hb.
  - apply Z.lor_eq_0_iff in Hab. now apply Ha.
  - apply Z.lor_eq_0_iff in Hab. now apply Ha.
Qed.

(** Merging never clears a bit. *)
Lemma lor_keeps (a b : ComputationOption) : Z.land (Z.lor a b) a = a.
Proof.
  apply Z.bits_inj'. intros n Hn.
  rewrite Z.land_spec, Z.lor_spec.
  destruct (Z.testbit a n), (Z.testbit b n); reflexivity.
Qed.

(** ** Registration of frames *)

Section Frames.
Context {S : Scalar} {P : Pinocchio}.

Lemma FrameData_initPublishers_fst (prefix name : string) (f : FrameData.t) :
  fst (FrameData_initPublishers prefix name f)
  = FrameData_advertised prefix name f.
Proof.
  unfold FrameData_initPublishers, FrameData_advertised, advertise.
  destruct f as [i o pq pv]. simpl.
  destruct (has_option o Position); simpl;
    destruct (has_option o Derivative); reflexivity.
Qed.

Lemma addOperationalFrame_loop_found (prefix name : string)
  (index : FrameIndex) (option : ComputationOption)
  (frames : list FrameData.t) :
  has_frame index frames = true ->
  exists t,
    addOperationalFrame_loop prefix name index option frames
    = Some (merged_frames prefix name index option frames, t).
Proof.
  unfold has_frame.
  induction frames as [|x rest IH]; simpl; [discriminate|].
  destruct (Nat.eqb (FrameData.index x) index) eqn:Hx; simpl.
  - intros _.
    rewrite <- FrameData_initPublishers_fst.
    destruct (FrameData_initPublishers _ _ _) as [x' t]. now exists t.
  - intros H. destruct (IH H) as [t Ht]. rewrite Ht. now exists t.
Qed.

Lemma addOperationalFrame_loop_absent (prefix name : string)
  (index : FrameIndex) (option : ComputationOption)
  (frames : list FrameData.t) :
  has_frame index frames = false ->
  addOperationalFrame_loop prefix name index option frames = None.
Proof.
  unfold has_frame.
  induction frames as [|x rest IH]; simpl; [reflexivity|].
  destruct (Nat.eqb (FrameData.index x) index); simpl; [discriminate|].
  intros H. now rewrite (IH H).
Qed.

Lemma addOperationalFrame_registered (name : string)
  (option : ComputationOption) (s : Discretization) :
  handle_ s <> None ->
  existFrame (device_ s) name = true ->
  exists t,
    addOperationalFrame name option s =
    (Returned true,
     set_frames_
       (registered_frames (topicPrefix_ s) name
          (getFrameId (device_ s) name) option (frames_ s)) s,
     t).
Proof.
  intros Hh He. unfold addOperationalFrame, bind, get. simpl.
  destruct (handle_ s) as [h|]; [clear Hh|contradiction].
  rewrite He. simpl. unfold registered_frames.
  destruct (has_frame (getFrameId (device_ s) name) (frames_ s)) eqn:Hf.
  - destruct (@addOperationalFrame_loop_found (topicPrefix_ s) name
                _ option _ Hf) as [t Ht].
    rewrite Ht. simpl. eexists. reflexivity.
  - rewrite (@addOperationalFrame_loop_absent (topicPrefix_ s) name
               _ option _ Hf).
    rewrite <- FrameData_initPublishers_fst.
    destruct (FrameData_initPublishers _ _ _) as [back t]. simpl.
    eexists. reflexivity.
Qed.

Lemma has_frame_app (index : FrameIndex) (l1 l2 : list FrameData.t) :
  has_frame index (l1 ++ l2) = has_frame index l1 || has_frame index l2.
Proof. unfold has_frame. apply existsb_app. Qed.

Lemma merged_frames_app_absent (prefix name : string) (index : FrameIndex)
  (option : ComputationOption) (l1 l2 : list FrameData.t) :
  has_frame index l1 = false ->
  merged_frames prefix name index option (l1 ++ l2)
  = l1 ++ merged_frames prefix name index option l2.
Proof.
  unfold has_frame.
  induction l1 as [|x l1 IH]; simpl; [reflexivity|].
  destruct (Nat.eqb (FrameData.index x) index); simpl; [discriminate|].
  intros H. now rewrite (IH H).
Qed.

Lemma count_frames_absent (index : FrameIndex) (l : list FrameData.t) :
  has_frame index l = false ->
  filter (fun f => Nat.eqb (FrameData.index f) index) l = [].
Proof.
  unfold has_frame.
  induction l as [|x l IH]; simpl; [reflexivity|].
  destruct (Nat.eqb (FrameData.index x) index); simpl; [discriminate|].
  exact IH.
Qed.

(** Registration keeps every target in place and only widens modes. *)
Lemma registered_frames_widen (prefix name : string) (index : FrameIndex)
  (option : ComputationOption) (frames : list FrameData.t) :
  forall i f,
    nth_error frames i = Some f ->
    exists f',
      nth_error (registered_frames prefix name index option frames) i
      = Some f'
      /\ FrameData.index f' = FrameData.index f
      /\ Z.land (FrameData.option f') (FrameData.option f)
         = FrameData.option f.
Proof.
  unfold registered_frames.
  destruct (has_frame index frames) eqn:Hf.
  - clear Hf. induction frames as [|x rest IH]; intros i f Hi.
    + destruct i; discriminate.
    + simpl. destruct (Nat.eqb (FrameData.index x) index).
      * destruct i as [|i]; simpl in *.
        -- injection Hi as <-. eexists. split; [reflexivity|].
           simpl. split; [reflexivity|apply lor_keeps].
        -- exists f. repeat split; auto. apply Z.land_diag.
      * destruct i as [|i]; simpl in *.
        -- injection Hi as <-. exists x. repeat split. apply Z.land_diag.
        -- now apply IH.
  - intros i f Hi. exists f. split; [|split; [reflexivity|apply Z.land_diag]].
    rewrite nth_error_app1; [exact Hi|].
    apply nth_error_Some. now rewrite Hi.
Qed.

End Frames.

Lemma has_option_mono (o o' flag : ComputationOption) :
  Z.land o' o = o -> has_option o flag = true -> has_option o' flag = true.
Proof.
  unfold has_option. intros Hsub Ho.
  apply negb_true_iff in Ho. apply negb_true_iff.
  apply Z.eqb_neq in Ho. apply Z.eqb_neq. intros H0. apply Ho.
  rewrite <- Hsub.
  rewrite (Z.land_comm o' o), <- Z.land_assoc, H0. apply Z.land_0_r.
Qed.

Section FrameClaims.
Context {S : Scalar} {P : Pinocchio}.

(** C6.  With the node handle set and a frame that the model has and
    that is not registered yet, registering the frame twice returns true
    twice and leaves the targets that were there followed by one target
    for the frame, whose mode is the bitwise or of the two modes (the mode
    itself when both are equal, PositionAndDerivative for Position then
    Derivative); exactly one target has the index of the frame.  And a
    registration that goes through, in any state, keeps every target at
    its place with its index and with every bit its mode had. *)
Theorem addOperationalFrame_twice_merges
  (name : string) (m1 m2 : ComputationOption) (s : Discretization) :
  handle_ s <> None ->
  existFrame (device_ s) name = true ->
  has_frame (getFrameId (device_ s) name) (frames_ s) = false ->
  let index := getFrameId (device_ s) name in
  let r1 := addOperationalFrame name m1 s in
  let r2 := addOperationalFrame name m2 (final r1) in
  result r1 = Returned true
  /\ result r2 = Returned true
  /\ (exists f,
        frames_ (final r2) = frames_ s ++ [f]
        /\ FrameData.index f = index
        /\ FrameData.option f = Z.lor m1 m2
        /\ (m1 = m2 -> FrameData.option f = m1)
        /\ (m1 = Position -> m2 = Derivative ->
            FrameData.option f = PositionAndDerivative))
  /\ length (filter (fun f => Nat.eqb (FrameData.index f) index)
               (frames_ (final r2))) = 1
  /\ (forall (s' : Discretization) name' m i f,
        handle_ s' <> None ->
        existFrame (device_ s') name' = true ->
        nth_error (frames_ s') i = Some f ->
        exists f',
          nth_error (frames_ (final (addOperationalFrame name' m s'))) i
          = Some f'
          /\ FrameData.index f' = FrameData.index f
          /\ Z.land (FrameData.option f') (FrameData.option f)
             = FrameData.option f
          /\ (forall flag,
                has_option (FrameData.option f) flag = true ->
                has_option (FrameData.option f') flag = true)).
Proof.
  intros Hh He Hf index r1 r2.
  destruct (addOperationalFrame_registered name m1 s Hh He) as [t1 E1].
  unfold registered_frames in E1. rewrite Hf in E1.
  assert (Hh1 : handle_ (final r1) <> None)
    by (unfold r1; rewrite E1; exact Hh).
  assert (He1 : existFrame (device_ (final r1)) name = true)
    by (unfold r1; rewrite E1; exact He).
  destruct (addOperationalFrame_registered name m2 (final r1) Hh1 He1)
    as [t2 E2].
  assert (Efr :
    frames_ (final r2) =
    frames_ s ++
    [FrameData_advertised (topicPrefix_ s) name
       (FrameData.Build index (Z.lor m1 m2)
          (FrameData.pubQ (FrameData_advertised (topicPrefix_ s) name
                             (FrameData.make index m1)))
          (FrameData.pubV (FrameData_advertised (topicPrefix_ s) name
                             (FrameData.make index m1))))]).
  { unfold r2. rewrite E2. unfold r1. rewrite E1. unfold final, index.
    simpl. unfold registered_frames.
    rewrite has_frame_app, Hf. simpl. rewrite Nat.eqb_refl. simpl.
    rewrite merged_frames_app_absent by exact Hf.
    simpl. rewrite Nat.eqb_refl. reflexivity. }
  split; [|split; [|split; [|split]]].
  - unfold r1. now rewrite E1.
  - unfold r2. now rewrite E2.
  - eexists. split; [exact Efr|]. simpl.
    repeat split.
    + intros <-. apply Z.lor_diag.
    + intros -> ->. reflexivity.
  - rewrite Efr, filter_app. unfold index.
    rewrite (count_frames_absent _ _ Hf). simpl.
    now rewrite Nat.eqb_refl.
  - intros s' name' m i f Hh' He' Hi.
    destruct (addOperationalFrame_registered name' m s' Hh' He') as [t E].
    rewrite E. unfold final. simpl.
    destruct (registered_frames_widen (topicPrefix_ s') name'
                (getFrameId (device_ s') name') m (frames_ s') i Hi)
      as (f' & Hn & Hi' & Ho).
    exists f'. repeat split; auto.
    intros flag. now apply has_option_mono.
Qed.

(** C8.  Without a node handle [addOperationalFrame] throws the logic
    error "Initialize ROS first"; with a handle and a name the model has
    no frame for it returns false.  In both cases the state is the one it
    started from and no call was made: no target, no publisher. *)
Theorem addOperationalFrame_failures
  (name : string) (option : ComputationOption) (s : Discretization) :
  (handle_ s = None ->
   addOperationalFrame name option s
   = (Thrown (logic_error "Initialize ROS first"), s, []))
  /\ (handle_ s <> None ->
      existFrame (device_ s) name = false ->
      addOperationalFrame name option s = (Returned false, s, [])).
Proof.
  unfold addOperationalFrame, bind, get, throw, ret. simpl. split.
  - intros Hh. rewrite Hh. reflexivity.
  - intros Hh He. destruct (handle_ s); [|contradiction].
    rewrite He. reflexivity.
Qed.

End FrameClaims.

(** ** Registration of centres of mass *)

Section Coms.
Context {S : Scalar} {P : Pinocchio}.

Lemma COM_initPublishers_eq (prefix name : string) (c : COM.t) :
  COM_initPublishers prefix name c
  = (COM_advertised prefix name c,
     COM_advertisements prefix name (COM.option c)).
Proof.
  unfold COM_initPublishers, COM_advertised, COM_advertisements, advertise.
  destruct c as [h o pq pv]. simpl.
  destruct (has_option o Position); simpl;
    destruct (has_option o Derivative); reflexivity.
Qed.

Lemma addCenterOfMass_loop_found (prefix name : string)
  (c : CenterOfMassComputationPtr_t) (option : ComputationOption)
  (coms : list COM.t) :
  has_com c coms = true ->
  addCenterOfMass_loop prefix name c option coms
  = Some (merged_coms prefix name c option coms,
          COM_advertisements prefix name (Z.lor (mode_of c coms) option)).
Proof.
  unfold has_com.
  induction coms as [|x rest IH]; simpl; [discriminate|].
  destruct (Nat.eqb (COM.com x) c) eqn:Hx; simpl.
  - intros _. now rewrite COM_initPublishers_eq.
  - intros H. now rewrite (IH H).
Qed.

Lemma addCenterOfMass_loop_absent (prefix name : string)
  (c : CenterOfMassComputationPtr_t) (option : ComputationOption)
  (coms : list COM.t) :
  has_com c coms = false ->
  addCenterOfMass_loop prefix name c option coms = None.
Proof.
  unfold has_com.
  induction coms as [|x rest IH]; simpl; [reflexivity|].
  destruct (Nat.eqb (COM.com x) c); simpl; [discriminate|].
  intros H. now rewrite (IH H).
Qed.

Lemma addCenterOfMass_registered (name : string)
  (c : CenterOfMassComputationPtr_t) (option : ComputationOption)
  (s : Discretization) :
  handle_ s <> None ->
  addCenterOfMass name c option s =
  (Returned true,
   set_coms_ (registered_coms (topicPrefix_ s) name c option (coms_ s)) s,
   registration_calls (topicPrefix_ s) name c option (coms_ s)).
Proof.
  intros Hh. unfold addCenterOfMass, bind, get. simpl.
  destruct (handle_ s) as [h|]; [clear Hh|contradiction].
  unfold registered_coms, registration_calls.
  destruct (has_com c (coms_ s)) eqn:Hc.
  - rewrite (@addCenterOfMass_loop_found (topicPrefix_ s) name c option
               _ Hc).
    simpl. now rewrite app_nil_r.
  - rewrite (@addCenterOfMass_loop_absent (topicPrefix_ s) name c option
               _ Hc).
    rewrite COM_initPublishers_eq. simpl. now rewrite app_nil_r.
Qed.

Lemma has_com_app (c : CenterOfMassComputationPtr_t) (l1 l2 : list COM.t) :
  has_com c (l1 ++ l2) = has_com c l1 || has_com c l2.
Proof. unfold has_com. apply existsb_app. Qed.

Lemma merged_coms_app_absent (prefix name : string)
  (c : CenterOfMassComputationPtr_t) (option : ComputationOption)
  (l1 l2 : list COM.t) :
  has_com c l1 = false ->
  merged_coms prefix name c option (l1 ++ l2)
  = l1 ++ merged_coms prefix name c option l2.
Proof.
  unfold has_com.
  induction l1 as [|x l1 IH]; simpl; [reflexivity|].
  destruct (Nat.eqb (COM.com x) c); simpl; [discriminate|].
  intros H. now rewrite (IH H).
Qed.

Lemma mode_of_app_absent (c : CenterOfMassComputationPtr_t)
  (l1 l2 : list COM.t) :
  has_com c l1 = false -> mode_of c (l1 ++ l2) = mode_of c l2.
Proof.
  unfold has_com.
  induction l1 as [|x l1 IH]; simpl; [reflexivity|].
  destruct (Nat.eqb (COM.com x) c); simpl; [discriminate|].
  exact IH.
Qed.

Lemma count_coms_absent (c : CenterOfMassComputationPtr_t)
  (l : list COM.t) :
  has_com c l = false ->
  filter (fun x => Nat.eqb (COM.com x) c) l = [].
Proof.
  unfold has_com.
  induction l as [|x l IH]; simpl; [reflexivity|].
  destruct (Nat.eqb (COM.com x) c); simpl; [discriminate|].
  exact IH.
Qed.

(** C7.  With the node handle set and a handle [c] that is not registered
    yet, two calls of [addCenterOfMass] with [c], under any two names,
    return true and leave the targets that were there followed by one
    target for [c]: its mode is the bitwise or of the two modes, and it
    holds one publisher for each of the Position and Derivative bits of
    that mode, on the topic made from the second name; the second call
    advertises exactly these topics, and exactly one target has handle
    [c].  Whatever the name, the handle and the mode, [addCenterOfMass]
    returns true as soon as the node handle is set. *)
Theorem addCenterOfMass_same_handle
  (n1 n2 : string) (c : CenterOfMassComputationPtr_t)
  (m1 m2 : ComputationOption) (s : Discretization) :
  handle_ s <> None ->
  has_com c (coms_ s) = false ->
  let r1 := addCenterOfMass n1 c m1 s in
  let r2 := addCenterOfMass n2 c m2 (final r1) in
  let m := Z.lor m1 m2 in
  result r1 = Returned true
  /\ result r2 = Returned true
  /\ coms_ (final r2) =
     coms_ s ++
     [COM.Build c m
        (if has_option m Position
         then Publisher_on (topicPrefix_ s ++ "com/" ++ n2)
         else Publisher_invalid)
        (if has_option m Derivative
         then Publisher_on (topicPrefix_ s ++ "velocity/com/" ++ n2)
         else Publisher_invalid)]
  /\ calls r2 =
     (if has_option m Position
      then [Advertise (topicPrefix_ s ++ "com/" ++ n2) queue_size false]
      else [])
     ++ (if has_option m Derivative
         then [Advertise (topicPrefix_ s ++ "velocity/com/" ++ n2)
                 queue_size false]
         else [])
  /\ length (filter (fun x => Nat.eqb (COM.com x) c) (coms_ (final r2))) = 1
  /\ (forall (s' : Discretization) name c' m',
        handle_ s' <> None ->
        result (addCenterOfMass name c' m' s') = Returned true).
Proof.
  intros Hh Hc r1 r2 m.
  assert (E1 := addCenterOfMass_registered n1 c m1 s Hh).
  unfold registered_coms, registration_calls in E1. rewrite Hc in E1.
  assert (Hh1 : handle_ (final r1) <> None)
    by (unfold r1; rewrite E1; exact Hh).
  assert (E2 := addCenterOfMass_registered n2 c m2 (final r1) Hh1).
  assert (Hin : has_com c (coms_ (final r1)) = true).
  { unfold r1. rewrite E1. unfold final. simpl.
    rewrite has_com_app, Hc. simpl. now rewrite Nat.eqb_refl. }
  unfold registered_coms, registration_calls in E2. rewrite Hin in E2.
  assert (Ecoms :
    coms_ (final r2) =
    coms_ s ++
    [COM.Build c m
       (if has_option m Position
        then Publisher_on (topicPrefix_ s ++ "com/" ++ n2)
        else Publisher_invalid)
       (if has_option m Derivative
        then Publisher_on (topicPrefix_ s ++ "velocity/com/" ++ n2)
        else Publisher_invalid)]).
  { unfold r2. rewrite E2. unfold r1. rewrite E1. unfold final. simpl.
    rewrite merged_coms_app_absent by exact Hc.
    simpl. rewrite Nat.eqb_refl. unfold COM_advertised. simpl. fold m.
    f_equal. f_equal.
    unfold m. rewrite !has_option_lor.
    destruct (has_option m1 Position), (has_option m2 Position),
      (has_option m1 Derivative), (has_option m2 Derivative); reflexivity. }
  split; [|split; [|split; [|split; [|split]]]].
  - unfold r1. now rewrite E1.
  - unfold r2. now rewrite E2.
  - exact Ecoms.
  - unfold r2. rewrite E2. unfold calls. simpl.
    unfold r1. rewrite E1. unfold final. simpl.
    rewrite mode_of_app_absent by exact Hc. simpl.
    rewrite Nat.eqb_refl. reflexivity.
  - rewrite Ecoms, filter_app, (count_coms_absent _ _ Hc). simpl.
    now rewrite Nat.eqb_refl.
  - intros s' name c' m' Hh'.
    now rewrite (addCenterOfMass_registered name c' m' s' Hh').
Qed.

End Coms.

(** ** Reset, and the calls on the mutex *)

Section ResetAndLock.
Context {S : Scalar} {P : Pinocchio}.

Lemma coms_loop_publishes (v : vector_t) (coms : list COM.t) :
  forall d, Forall (fun e => is_Publish e = true) (snd (coms_loop v coms d)).
Proof.
  induction coms as [|com rest IH]; intros d; simpl.
  - constructor.
  - specialize (IH (COM_compute com d)).
    destruct (coms_loop v rest (COM_compute com d)) as [d2 t2].
    simpl in *. rewrite <- app_assoc.
    apply Forall_app. split; [|apply Forall_app; split; [|exact IH]].
    + destruct (has_option (COM.option com) Position); repeat constructor.
    + destruct (has_option (COM.option com) Derivative); repeat constructor.
Qed.

Lemma publish_frame_publishes (d : DeviceData) (frame : FrameData.t) :
  Forall (fun e => is_Publish e = true) (publish_frame d frame).
Proof.
  unfold publish_frame. apply Forall_app. split.
  - destruct (has_option (FrameData.option frame) Position);
      repeat constructor.
  - destruct (has_option (FrameData.option frame) Derivative);
      [|constructor].
    destruct (getFrameVelocity d (FrameData.index frame)).
    repeat constructor.
Qed.

Lemma published_publishes (s : Discretization) :
  Forall (fun e => is_Publish e = true) (published s).
Proof.
  unfold published. cbv zeta.
  repeat (apply Forall_cons; [reflexivity|]). simpl.
  apply Forall_app. split.
  - apply Forall_flat_map. apply Forall_forall.
    intros f _. apply publish_frame_publishes.
  - apply coms_loop_publishes.
Qed.

(** The body of [compute] between locking and unlocking. *)
Lemma compute_calls (time : value_type) (s : Discretization) :
  exists body,
    calls (compute time s) = Lock :: body ++ [Unlock]
    /\ Forall (fun e => is_Publish e = true) body.
Proof.
  destruct (path_ s) as [path|] eqn:Hp.
  - destruct (snd (eval path (q_ (resized s)) time)) eqn:Hev.
    + rewrite (compute_success time s Hp Hev).
      eexists. split; [reflexivity|apply published_publishes].
    + rewrite (compute_eval_failed time s Hp Hev).
      exists []. split; [reflexivity|constructor].
  - rewrite (compute_no_path time s Hp).
    exists []. split; [reflexivity|constructor].
Qed.

Lemma resetTopics_eq (s : Discretization) :
  resetTopics s = (Returned tt, set_coms_ [] (set_frames_ [] s), []).
Proof. reflexivity. Qed.

(** C9.  [resetTopics] returns without a call and leaves no frame target
    and no centre-of-mass target, hence none of their publishers; the row
    views, the free-flyer flag, the three whole-body publishers and all
    the other members are as before.  A [compute] in the state it leaves
    either throws without publishing or publishes exactly the three
    whole-body messages, on [pubQ], [pubV] and [pubA]. *)
Theorem resetTopics_clears_targets (s : Discretization) :
  let s1 := final (resetTopics s) in
  result (resetTopics s) = Returned tt
  /\ calls (resetTopics s) = []
  /\ frames_ s1 = [] /\ coms_ s1 = []
  /\ qView_ s1 = qView_ s /\ vView_ s1 = vView_ s
  /\ hasFreeflyer_ s1 = hasFreeflyer_ s
  /\ pubQ s1 = pubQ s /\ pubV s1 = pubV s /\ pubA s1 = pubA s
  /\ device_ s1 = device_ s /\ path_ s1 = path_ s
  /\ handle_ s1 = handle_ s /\ topicPrefix_ s1 = topicPrefix_ s
  /\ q_ s1 = q_ s /\ v_ s1 = v_ s /\ a_ s1 = a_ s
  /\ (forall time,
        calls (compute time s1) = [Lock; Unlock]
        \/ exists qmsg vmsg amsg,
             calls (compute time s1) =
             [Lock; Publish (pubQ s) (Vector qmsg);
              Publish (pubV s) (Vector vmsg);
              Publish (pubA s) (Vector amsg); Unlock]).
Proof.
  intros s1. unfold s1. rewrite resetTopics_eq. unfold final. simpl.
  repeat (split; [reflexivity|]).
  intros time.
  set (s0 := set_coms_ [] (set_frames_ [] s)).
  destruct (path_ s0) as [path|] eqn:Hp.
  - destruct (snd (eval path (q_ (resized s0)) time)) eqn:Hev.
    + right. rewrite (compute_success time s0 Hp Hev).
      do 3 eexists. reflexivity.
    + left. now rewrite (compute_eval_failed time s0 Hp Hev).
  - left. now rewrite (compute_no_path time s0 Hp).
Qed.

Lemma FrameData_initPublishers_calls (prefix name : string)
  (f : FrameData.t) :
  Forall (fun e => is_Advertise e = true)
    (snd (FrameData_initPublishers prefix name f)).
Proof.
  unfold FrameData_initPublishers, advertise.
  destruct (has_option (FrameData.option f) Position); simpl;
    destruct (has_option (FrameData.option f) Derivative); simpl;
    repeat constructor.
Qed.

Lemma addOperationalFrame_loop_calls (prefix name : string)
  (index : FrameIndex) (option : ComputationOption)
  (frames : list FrameData.t) :
  forall frames' t,
    addOperationalFrame_loop prefix name index option frames
    = Some (frames', t) ->
    Forall (fun e => is_Advertise e = true) t.
Proof.
  induction frames as [|x rest IH]; simpl; intros frames' t H.
  - discriminate.
  - destruct (Nat.eqb (FrameData.index x) index).
    + pose proof (FrameData_initPublishers_calls prefix name
                    (FrameData.Build (FrameData.index x)
                       (Z.lor (FrameData.option x) option)
                       (FrameData.pubQ x) (FrameData.pubV x))) as Hc.
      destruct (FrameData_initPublishers _ _ _) as [x' t'].
      injection H as _ <-. exact Hc.
    + destruct (addOperationalFrame_loop prefix name index option rest)
        as [[rest' t']|]; [|discriminate].
      injection H as _ <-. now apply (IH rest').
Qed.

Lemma addOperationalFrame_calls (name : string)
  (option : ComputationOption) (s : Discretization) :
  Forall (fun e => is_Advertise e = true)
    (calls (addOperationalFrame name option s)).
Proof.
  unfold addOperationalFrame, bind, get, calls. simpl.
  destruct (handle_ s); [|constructor].
  destruct (existFrame (device_ s) name); simpl; [|constructor].
  destruct (addOperationalFrame_loop _ _ _ _ _) as [[frames t]|] eqn:Hl.
  - simpl. rewrite app_nil_r.
    now apply (addOperationalFrame_loop_calls _ _ _ _ _ Hl).
  - pose proof (FrameData_initPublishers_calls (topicPrefix_ s) name
                  (FrameData.make (getFrameId (device_ s) name) option))
      as Hc.
    destruct (FrameData_initPublishers _ _ _) as [back t].
    simpl. now rewrite app_nil_r.
Qed.

Lemma COM_advertisements_calls (prefix name : string)
  (option : ComputationOption) :
  Forall (fun e => is_Advertise e = true)
    (COM_advertisements prefix name option).
Proof.
  unfold COM_advertisements.
  destruct (has_option option Position);
    destruct (has_option option Derivative); repeat constructor.
Qed.

Lemma addCenterOfMass_calls (name : string)
  (c : CenterOfMassComputationPtr_t) (option : ComputationOption)
  (s : Discretization) :
  Forall (fun e => is_Advertise e = true)
    (calls (addCenterOfMass name c option s)).
Proof.
  destruct (handle_ s) as [h|] eqn:Hh.
  - rewrite addCenterOfMass_registered by (rewrite Hh; discriminate).
    unfold calls, registration_calls. simpl.
    destruct (has_com c (coms_ s)); apply COM_advertisements_calls.
  - unfold addCenterOfMass, bind, get, calls. simpl. rewrite Hh.
    constructor.
Qed.

Lemma shutdownRos_eq (s : Discretization) :
  handle_ s <> None ->
  shutdownRos s =
  (Returned tt,
   set_handle_ None
     (set_pubA Publisher_invalid
        (set_pubV Publisher_invalid
           (set_pubQ Publisher_invalid
              (set_coms_ [] (set_frames_ [] s))))),
   [Lock; Shutdown (pubQ s); Shutdown (pubV s); Shutdown (pubA s); Unlock]).
Proof.
  intros Hh. unfold shutdownRos, bind, get. simpl.
  destruct (handle_ s); [reflexivity|contradiction].
Qed.

(** *** Two callers and the mutex *)

Lemma interleaving_nil_l (b c : list Event) :
  interleaving [] b c -> c = b.
Proof.
  revert c. induction b as [|e b IH]; intros c H; inversion H; subst.
  - reflexivity.
  - f_equal. now apply IH.
Qed.

Lemma interleaving_comm (a b c : list Event) :
  interleaving a b c -> interleaving b a c.
Proof.
  induction 1; constructor; assumption.
Qed.

Lemma admissible_not_mutex (held : bool) (e : Event) (l : list Event) :
  is_mutex_call e = false -> admissible held (e :: l) = admissible held l.
Proof.
  destruct e; simpl; intros H; try discriminate; reflexivity.
Qed.

(** While one caller is between its [Lock] and its [Unlock], a caller
    whose next call is [Lock] does not move. *)
Lemma critical_section_runs_alone (body rest c : list Event) :
  Forall (fun e => is_mutex_call e = false) body ->
  interleaving (body ++ [Unlock]) (Lock :: rest) c ->
  admissible true c = true ->
  c = (body ++ [Unlock]) ++ Lock :: rest.
Proof.
  intros Hbody. revert c.
  induction Hbody as [|e body He Hb IH]; intros c Hi Ha; simpl in *.
  - inversion Hi; subst.
    + f_equal. now apply interleaving_nil_l.
    + simpl in Ha. discriminate.
  - inversion Hi; subst.
    + f_equal. apply IH; [assumption|].
      now rewrite admissible_not_mutex in Ha.
    + simpl in Ha. discriminate.
Qed.

(** Two callers that each lock first and unlock last run one after the
    other. *)
Lemma locked_callers_exclude (ba bb c : list Event) :
  Forall (fun e => is_mutex_call e = false) ba ->
  Forall (fun e => is_mutex_call e = false) bb ->
  interleaving (Lock :: ba ++ [Unlock]) (Lock :: bb ++ [Unlock]) c ->
  admissible false c = true ->
  c = (Lock :: ba ++ [Unlock]) ++ (Lock :: bb ++ [Unlock])
  \/ c = (Lock :: bb ++ [Unlock]) ++ (Lock :: ba ++ [Unlock]).
Proof.
  intros Ha Hb Hi Hadm. inversion Hi; subst; simpl in Hadm.
  - left. simpl. f_equal.
    now apply (critical_section_runs_alone Ha).
  - right. simpl. f_equal.
    apply (critical_section_runs_alone Hb); [|assumption].
    now apply interleaving_comm.
Qed.

Lemma publish_not_mutex (l : list Event) :
  Forall (fun e => is_Publish e = true) l ->
  Forall (fun e => is_mutex_call e = false) l.
Proof.
  apply Forall_impl. intros e He. destruct e; try discriminate; reflexivity.
Qed.

(** C5, as the code has it.  [compute] locks the mutex first and unlocks
    it last, on return and on a throw, and only publishes in between;
    [shutdownRos], which the destructor calls, does the same around the
    reset and the three shutdowns when the node handle is set, and
    returns without touching the mutex when it is not.  So a [compute]
    and a teardown, or two [compute], that are called at once run one
    after the other.  [addOperationalFrame], [addCenterOfMass],
    [setJointNames] and [resetTopics] never lock: the first two only
    advertise, the last two make no call at all. *)
Theorem mutex_held_by_compute_and_shutdown_only (s : Discretization) :
  (forall time,
     exists body,
       calls (compute time s) = Lock :: body ++ [Unlock]
       /\ Forall (fun e => is_Publish e = true) body)
  /\ (handle_ s <> None ->
      calls (shutdownRos s) =
      [Lock; Shutdown (pubQ s); Shutdown (pubV s); Shutdown (pubA s);
       Unlock])
  /\ (handle_ s = None -> shutdownRos s = (Returned tt, s, []))
  /\ (forall time s2 c,
        handle_ s2 <> None ->
        interleaving (calls (compute time s)) (calls (shutdownRos s2)) c ->
        admissible false c = true ->
        c = calls (compute time s) ++ calls (shutdownRos s2)
        \/ c = calls (shutdownRos s2) ++ calls (compute time s))
  /\ (forall time time2 s2 c,
        interleaving (calls (compute time s)) (calls (compute time2 s2)) c ->
        admissible false c = true ->
        c = calls (compute time s) ++ calls (compute time2 s2)
        \/ c = calls (compute time2 s2) ++ calls (compute time s))
  /\ (forall name option,
        Forall (fun e => is_Advertise e = true)
          (calls (addOperationalFrame name option s))
        /\ ~ In Lock (calls (addOperationalFrame name option s)))
  /\ (forall name c option,
        Forall (fun e => is_Advertise e = true)
          (calls (addCenterOfMass name c option s))
        /\ ~ In Lock (calls (addCenterOfMass name c option s)))
  /\ (forall names, calls (setJointNames names s) = [])
  /\ calls (resetTopics s) = [].
Proof.
  assert (Hno : forall l : list Event,
             Forall (fun e => is_Advertise e = true) l -> ~ In Lock l).
  { intros l Hl Hin. rewrite Forall_forall in Hl.
    specialize (Hl _ Hin). discriminate. }
  split; [|split; [|split; [|split; [|split; [|split; [|split; [|split]]]]]]].
  - intros time. apply compute_calls.
  - intros Hh. now rewrite shutdownRos_eq.
  - intros Hh. unfold shutdownRos, bind, get. simpl. now rewrite Hh.
  - intros time s2 c Hh Hi Hadm.
    destruct (compute_calls time s) as (body & E & Hb).
    assert (E2 : calls (shutdownRos s2) =
                 Lock :: [Shutdown (pubQ s2); Shutdown (pubV s2);
                          Shutdown (pubA s2)] ++ [Unlock])
      by now rewrite (shutdownRos_eq s2 Hh).
    rewrite E, E2 in *.
    apply publish_not_mutex in Hb.
    apply locked_callers_exclude; try assumption.
    repeat constructor.
  - intros time time2 s2 c Hi Hadm.
    destruct (compute_calls time s) as (body & E & Hb).
    destruct (compute_calls time2 s2) as (body2 & E2 & Hb2).
    rewrite E, E2 in *.
    apply publish_not_mutex in Hb, Hb2.
    now apply locked_callers_exclude.
  - intros name option. split; [|apply Hno]; apply addOperationalFrame_calls.
  - intros name c option. split; [|apply Hno]; apply addCenterOfMass_calls.
  - intros names. now rewrite setJointNames_eq.
  - reflexivity.
Qed.

End ResetAndLock.

(** ** The floating base and the centre-of-mass switch *)

Section FloatingBaseAndSwitch.
Context {S : Scalar} {P : Pinocchio}.

(** C10.  With the free-flyer flag set, the position message of a
    successful [compute] starts with the translation of [oMi[1]] followed
    by the Euler angles (2, 1, 0) of the rotation of [oMi[1]]: joint 1 of
    the model, whatever the configured names.  And the state that
    [setJointNames] leaves depends on the names only through the flag
    (is some named joint a floating base) and through the list of the
    other joints: two lists of names that agree on these leave the same
    state, so the state does not tell which joint set the flag. *)
Theorem freeflyer_read_from_joint_1
  (time : value_type) (s : Discretization) (path : Path) :
  path_ s = Some path ->
  snd (eval path (Eigen_resize (q_ s) (configSize (device_ s))) time)
  = true ->
  hasFreeflyer_ s = true ->
  let q := fst (eval path (Eigen_resize (q_ s) (configSize (device_ s)))
                  time) in
  let v := derivative path (Eigen_resize (v_ s) (numberDof (device_ s)))
             time 1 in
  let d := forwardKinematics (device_ s) q v in
  (exists rest,
     calls (compute time s) =
     Lock :: Publish (pubQ s)
               (Vector (vector3_data (translation (oMi d 1))
                        ++ vector3_data
                             (eulerAngles (rotation (oMi d 1)) 2 1 0)
                        ++ rview (qView_ s) q)) :: rest)
  /\ (forall (s0 : Discretization) (names names' : list string),
        existsb is_floating_base (joints_of (device_ s0) names)
        = existsb is_floating_base (joints_of (device_ s0) names') ->
        selected (device_ s0) names = selected (device_ s0) names' ->
        setJointNames names s0 = setJointNames names' s0).
Proof.
  intros Hp Hev Hff q v d. split.
  - rewrite (compute_success time s Hp Hev). unfold calls, published.
    cbv zeta. simpl snd.
    eexists. rewrite <- ?app_comm_cons. simpl app.
    rewrite position_data_layout. simpl hasFreeflyer_. rewrite Hff.
    unfold freeflyer_prefix. rewrite <- app_assoc. reflexivity.
  - intros s0 names names' Hfl Hsel. rewrite !setJointNames_eq.
    unfold with_joints. now rewrite Hfl, Hsel.
Qed.

(** The [switch] agrees with the bits on the four values it names. *)
Lemma COM_compute_named_values (c : COM.t) (d : DeviceData) :
  COM.option c = Position \/ COM.option c = Derivative
  \/ COM.option c = Acceleration \/ COM.option c = PositionAndDerivative ->
  COM_compute c d = COM_compute_by_bits c d.
Proof.
  unfold COM_compute, COM_compute_by_bits.
  intros [H|[H|[H|H]]]; rewrite H; reflexivity.
Qed.

(** On any other value no case of the [switch] is taken. *)
Lemma COM_compute_other_values (c : COM.t) (d : DeviceData) :
  COM.option c <> Position -> COM.option c <> Derivative ->
  COM.option c <> PositionAndDerivative ->
  COM_compute c d = d.
Proof.
  unfold COM_compute. intros HP HD HPD.
  apply Z.eqb_neq in HP, HD, HPD. rewrite HP, HD, HPD.
  now destruct (COM.option c =? Acceleration)%Z.
Qed.

End FloatingBaseAndSwitch.

(** * Further properties of the member functions *)

(** ** What [compute] leaves of the object *)

Section ComputeFrame.
Context {S : Scalar} {P : Pinocchio}.

Lemma Eigen_resize_length (v : vector_t) (n : nat) :
  length (Eigen_resize v n) = n.
Proof.
  unfold Eigen_resize. destruct (Nat.eqb_spec (length v) n) as [E|E].
  - exact E.
  - apply repeat_length.
Qed.

Lemma compute_same_configuration (time : value_type) (s : Discretization) :
  same_configuration s (final (compute time s)).
Proof.
  unfold same_configuration.
  destruct (path_ s) as [path|] eqn:Hp.
  - destruct (snd (eval path (q_ (resized s)) time)) eqn:Hev.
    + rewrite (compute_success time s Hp Hev). unfold final. simpl.
      rewrite Hp. repeat split; reflexivity.
    + rewrite (compute_eval_failed time s Hp Hev). unfold final. simpl.
      rewrite Hp. repeat split; reflexivity.
  - rewrite (compute_no_path time s Hp). unfold final. simpl.
    rewrite Hp. repeat split; reflexivity.
Qed.

(** X1.  [compute] never reconfigures the object: whatever its outcome,
    the device, the path, the free-flyer flag, the row views, the
    targets, the node handle, the prefix and the three publishers are the
    ones it started with.  Without a path the whole state is unchanged;
    when the evaluation fails the buffers have already been resized to
    the sizes of the device and the configuration buffer holds what the
    path wrote; on success the three buffers hold the samples. *)
Theorem compute_changes_buffers_only
  (time : value_type) (s : Discretization) :
  let s1 := final (compute time s) in
  same_configuration s s1
  /\ (path_ s = None -> s1 = s)
  /\ (forall path,
        path_ s = Some path ->
        let q := Eigen_resize (q_ s) (configSize (device_ s)) in
        let v := Eigen_resize (v_ s) (numberDof (device_ s)) in
        let a := Eigen_resize (a_ s) (numberDof (device_ s)) in
        length q = configSize (device_ s)
        /\ length v = numberDof (device_ s)
        /\ length a = numberDof (device_ s)
        /\ q_ s1 = fst (eval path q time)
        /\ (snd (eval path q time) = false -> v_ s1 = v /\ a_ s1 = a)
        /\ (snd (eval path q time) = true ->
            v_ s1 = derivative path v time 1
            /\ a_ s1 = derivative path a time 2)).
Proof.
  intros s1. split; [apply compute_same_configuration|]. split.
  - intros Hp. unfold s1. now rewrite (compute_no_path time s Hp).
  - intros path Hp q v a.
    repeat (split; [apply Eigen_resize_length|]).
    unfold s1.
    destruct (snd (eval path (q_ (resized s)) time)) eqn:Hev.
    + rewrite (compute_success time s Hp Hev). unfold final. simpl.
      split; [reflexivity|]. split; [|intros _; split; reflexivity].
      intros H. unfold q in H. simpl in Hev. rewrite Hev in H.
      discriminate.
    + rewrite (compute_eval_failed time s Hp Hev). unfold final. simpl.
      split; [reflexivity|]. split; [intros _; split; reflexivity|].
      intros H. unfold q in H. simpl in Hev. rewrite Hev in H.
      discriminate.
Qed.

End ComputeFrame.

(** ** The messages of the targets *)

Section TargetMessages.
Context {S : Scalar} {P : Pinocchio}.

Lemma publish_frame_count (d : DeviceData) (f : FrameData.t) :
  length (publish_frame d f) = channels (FrameData.option f).
Proof.
  unfold publish_frame, channels. rewrite length_app.
  destruct (has_option (FrameData.option f) Position);
    destruct (has_option (FrameData.option f) Derivative);
    destruct (getFrameVelocity d (FrameData.index f)); reflexivity.
Qed.

Lemma frames_loop_count (d : DeviceData) (frames : list FrameData.t) :
  length (flat_map (publish_frame d) frames)
  = list_sum (map (fun f => channels (FrameData.option f)) frames).
Proof.
  induction frames as [|f frames IH]; simpl; [reflexivity|].
  now rewrite length_app, publish_frame_count, IH.
Qed.

Lemma coms_loop_count (v : vector_t) (coms : list COM.t) :
  forall d,
    length (snd (coms_loop v coms d))
    = list_sum (map (fun c => channels (COM.option c)) coms).
Proof.
  induction coms as [|c coms IH]; intros d; simpl; [reflexivity|].
  specialize (IH (COM_compute c d)).
  destruct (coms_loop v coms (COM_compute c d)) as [d2 t2].
  simpl in *. rewrite <- app_assoc, !length_app, IH. unfold channels.
  destruct (has_option (COM.option c) Position);
    destruct (has_option (COM.option c) Derivative); reflexivity.
Qed.

Lemma filter_all_true (A : Type) (p : A -> bool) (l : list A) :
  Forall (fun x => p x = true) l -> filter p l = l.
Proof.
  induction 1 as [|x l Hx _ IH]; simpl; [reflexivity|].
  now rewrite Hx, IH.
Qed.

Lemma frame_pose_published (d : DeviceData) (frames : list FrameData.t)
  (f : FrameData.t) :
  In f frames ->
  has_option (FrameData.option f) Position = true ->
  In (Publish (FrameData.pubQ f)
        (Transform (translation (oMf d (FrameData.index f)))
           (Quaternion (rotation (oMf d (FrameData.index f))))))
     (flat_map (publish_frame d) frames).
Proof.
  intros Hin Hp. apply in_flat_map. exists f. split; [exact Hin|].
  unfold publish_frame. rewrite Hp. apply in_or_app. left. now left.
Qed.

Lemma frame_velocity_published (d : DeviceData)
  (frames : list FrameData.t) (f : FrameData.t) :
  In f frames ->
  has_option (FrameData.option f) Derivative = true ->
  exists data,
    In (Publish (FrameData.pubV f) (Vector data))
       (flat_map (publish_frame d) frames)
    /\ length data = 6
    /\ data = vector3_data (fst (getFrameVelocity d (FrameData.index f)))
              ++ vector3_data
                   (snd (getFrameVelocity d (FrameData.index f))).
Proof.
  intros Hin Hd.
  destruct (getFrameVelocity d (FrameData.index f)) as [lin ang] eqn:Hv.
  exists (vector3_data lin ++ vector3_data ang). split; [|split].
  - apply in_flat_map. exists f. split; [exact Hin|].
    unfold publish_frame. rewrite Hd, Hv. apply in_or_app. right. now left.
  - destruct lin as [[x y] z], ang as [[a b] c]. reflexivity.
  - reflexivity.
Qed.

(** X2.  A successful [compute] makes, between locking and unlocking,
    only calls to [publish]: three for the whole body, then those of the
    frame targets, then those of the centre-of-mass targets, one for each
    Position or Derivative bit of each target and none for any other
    bit.  A frame target with the Position bit has the translation and
    the quaternion of [oMf[index]] published on its [pubQ]; one with the
    Derivative bit has the six scalars of its frame velocity, linear then
    angular, published on its [pubV]. *)
Theorem compute_publishes_once_per_channel
  (time : value_type) (s : Discretization) (path : Path) :
  path_ s = Some path ->
  snd (eval path (Eigen_resize (q_ s) (configSize (device_ s))) time)
  = true ->
  let q := fst (eval path (Eigen_resize (q_ s) (configSize (device_ s)))
                  time) in
  let v := derivative path (Eigen_resize (v_ s) (numberDof (device_ s)))
             time 1 in
  let d := forwardKinematics (device_ s) q v in
  (exists whole,
     calls (compute time s) =
     Lock :: whole
          ++ flat_map (publish_frame d) (frames_ s)
          ++ snd (coms_loop v (coms_ s) d) ++ [Unlock]
     /\ length whole = 3)
  /\ length (filter is_Publish (calls (compute time s))) =
     3 + list_sum (map (fun f => channels (FrameData.option f)) (frames_ s))
     + list_sum (map (fun c => channels (COM.option c)) (coms_ s))
  /\ (forall f,
        In f (frames_ s) ->
        has_option (FrameData.option f) Position = true ->
        In (Publish (FrameData.pubQ f)
              (Transform (translation (oMf d (FrameData.index f)))
                 (Quaternion (rotation (oMf d (FrameData.index f))))))
           (calls (compute time s)))
  /\ (forall f,
        In f (frames_ s) ->
        has_option (FrameData.option f) Derivative = true ->
        exists data,
          In (Publish (FrameData.pubV f) (Vector data))
             (calls (compute time s))
          /\ length data = 6
          /\ data =
             vector3_data (fst (getFrameVelocity d (FrameData.index f)))
             ++ vector3_data
                  (snd (getFrameVelocity d (FrameData.index f)))).
Proof.
  intros Hp Hev q v d.
  set (s1 := sampled path time s).
  set (qdata := position_data s1 (forwardKinematics (device_ s1) (q_ s1)
                                    (v_ s1))).
  set (vdata := velocity_data s1 qdata).
  set (adata := acceleration_data s1 vdata).
  assert (E : calls (compute time s) =
              Lock :: [Publish (pubQ s) (Vector qdata);
                       Publish (pubV s) (Vector vdata);
                       Publish (pubA s) (Vector adata)]
                   ++ flat_map (publish_frame d) (frames_ s)
                   ++ snd (coms_loop v (coms_ s) d) ++ [Unlock]).
  { rewrite (compute_success time s Hp Hev). unfold calls, published.
    cbv zeta. simpl snd. simpl app.
    rewrite <- app_assoc. reflexivity. }
  assert (Hfr : Forall (fun e => is_Publish e = true)
                  (flat_map (publish_frame d) (frames_ s))).
  { apply Forall_flat_map. apply Forall_forall.
    intros f _. apply publish_frame_publishes. }
  split; [|split; [|split]].
  - eexists. split; [exact E|reflexivity].
  - rewrite E. simpl filter.
    rewrite !filter_app. simpl.
    rewrite (filter_all_true is_Publish Hfr).
    rewrite (filter_all_true is_Publish (coms_loop_publishes v (coms_ s) d)).
    simpl. rewrite !length_app, frames_loop_count, coms_loop_count.
    simpl. lia.
  - intros f Hin Hb. rewrite E. right.
    apply in_or_app. right. apply in_or_app. left.
    now apply frame_pose_published.
  - intros f Hin Hb.
    destruct (frame_velocity_published d (frames_ s) f Hin Hb)
      as (data & Hd & Hl & Hdata).
    exists data. split; [|split; assumption].
    rewrite E. right.
    apply in_or_app. right. apply in_or_app. left. exact Hd.
Qed.

End TargetMessages.

(** ** What holds between two calls *)

Section Consistency.
Context {S : Scalar} {P : Pinocchio}.

Lemma initializeRosNode_eq (isInitialized : bool) (name : string)
  (anonymous : bool) (s : Discretization) :
  initializeRosNode isInitialized name anonymous s =
  (Returned (match handle_ s with None => true | Some _ => false end),
   set_pubA (Publisher_on (topicPrefix_ s ++ "acceleration"))
     (set_pubV (Publisher_on (topicPrefix_ s ++ "velocity"))
        (set_pubQ (Publisher_on (topicPrefix_ s ++ "position"))
           (match handle_ s with
            | None => set_handle_ (Some NodeHandle_new) s
            | Some _ => s
            end))),
   (if isInitialized then [] else [RosInit name anonymous])
   ++ [Advertise (topicPrefix_ s ++ "position") queue_size false;
       Advertise (topicPrefix_ s ++ "velocity") queue_size false;
       Advertise (topicPrefix_ s ++ "acceleration") queue_size false]).
Proof.
  unfold initializeRosNode, bind, get, emit, emit_all, modify, ret.
  destruct isInitialized; simpl;
    destruct (handle_ s) eqn:Hh; simpl; rewrite ?Hh; reflexivity.
Qed.

Lemma addOperationalFrame_final (name : string)
  (option : ComputationOption) (s : Discretization) :
  final (addOperationalFrame name option s) =
  match handle_ s with
  | None => s
  | Some _ =>
      if existFrame (device_ s) name
      then set_frames_
             (registered_frames (topicPrefix_ s) name
                (getFrameId (device_ s) name) option (frames_ s)) s
      else s
  end.
Proof.
  destruct (handle_ s) as [h|] eqn:Hh.
  - destruct (existFrame (device_ s) name) eqn:He.
    + destruct (@addOperationalFrame_registered _ _ name option s)
        as [t E]; [rewrite Hh; discriminate|exact He|].
      now rewrite E.
    + unfold addOperationalFrame, bind, get, ret, final. simpl.
      now rewrite Hh, He.
  - unfold addOperationalFrame, bind, get, throw, final. simpl.
    now rewrite Hh.
Qed.

Lemma addCenterOfMass_final (name : string)
  (c : CenterOfMassComputationPtr_t) (option : ComputationOption)
  (s : Discretization) :
  final (addCenterOfMass name c option s) =
  match handle_ s with
  | None => s
  | Some _ =>
      set_coms_ (registered_coms (topicPrefix_ s) name c option (coms_ s)) s
  end.
Proof.
  destruct (handle_ s) as [h|] eqn:Hh.
  - rewrite addCenterOfMass_registered by (rewrite Hh; discriminate).
    reflexivity.
  - unfold addCenterOfMass, bind, get, final. simpl. now rewrite Hh.
Qed.

Lemma shutdownRos_final (s : Discretization) :
  final (shutdownRos s) =
  match handle_ s with
  | None => s
  | Some _ =>
      set_handle_ None
        (set_pubA Publisher_invalid
           (set_pubV Publisher_invalid
              (set_pubQ Publisher_invalid
                 (set_coms_ [] (set_frames_ [] s)))))
  end.
Proof.
  unfold shutdownRos, bind, get, final. simpl.
  destruct (handle_ s); reflexivity.
Qed.

(** *** Frame targets *)

Lemma merged_frames_indices (prefix name : string) (index : FrameIndex)
  (option : ComputationOption) (frames : list FrameData.t) :
  map FrameData.index (merged_frames prefix name index option frames)
  = map FrameData.index frames.
Proof.
  induction frames as [|x rest IH]; simpl; [reflexivity|].
  destruct (Nat.eqb (FrameData.index x) index); simpl.
  - reflexivity.
  - now rewrite IH.
Qed.

Lemma has_frame_false_not_in (index : FrameIndex)
  (frames : list FrameData.t) :
  has_frame index frames = false ->
  ~ In index (map FrameData.index frames).
Proof.
  unfold has_frame. induction frames as [|x rest IH]; simpl.
  - intros _ [].
  - intros H. apply orb_false_elim in H as [Hx Hr].
    apply Nat.eqb_neq in Hx. intros [E|Hin]; [now apply Hx|].
    now apply IH.
Qed.

Lemma FrameData_advertised_wired (prefix name : string) (f : FrameData.t) :
  (has_option (FrameData.option f) Position = false ->
   Publisher_valid (FrameData.pubQ f) = false) ->
  (has_option (FrameData.option f) Derivative = false ->
   Publisher_valid (FrameData.pubV f) = false) ->
  frame_wired (FrameData_advertised prefix name f).
Proof.
  unfold frame_wired, FrameData_advertised. simpl. intros HQ HV.
  destruct (has_option (FrameData.option f) Position);
    destruct (has_option (FrameData.option f) Derivative);
    split; auto.
Qed.

Lemma merged_frames_wired (prefix name : string) (index : FrameIndex)
  (option : ComputationOption) (frames : list FrameData.t) :
  Forall frame_wired frames ->
  Forall frame_wired (merged_frames prefix name index option frames).
Proof.
  induction 1 as [|x rest [HQ HV] Hrest IH]; simpl; [constructor|].
  destruct (Nat.eqb (FrameData.index x) index).
  - constructor; [|exact Hrest].
    apply FrameData_advertised_wired; simpl; rewrite has_option_lor;
      intros H; apply orb_false_elim in H as [H _]; congruence.
  - constructor; [now split|exact IH].
Qed.

Lemma registered_frames_consistent (prefix name : string)
  (index : FrameIndex) (option : ComputationOption)
  (frames : list FrameData.t) :
  NoDup (map FrameData.index frames) ->
  Forall frame_wired frames ->
  NoDup (map FrameData.index
           (registered_frames prefix name index option frames))
  /\ Forall frame_wired (registered_frames prefix name index option frames).
Proof.
  intros Hnd Hw. unfold registered_frames.
  destruct (has_frame index frames) eqn:Hf.
  - rewrite merged_frames_indices. split; [exact Hnd|].
    now apply merged_frames_wired.
  - split.
    + rewrite map_app. apply NoDup_app; [exact Hnd| |].
      * simpl. constructor; [intros []|constructor].
      * intros a Ha [E|[]]. simpl in E. subst a.
        now apply (has_frame_false_not_in _ _ Hf).
    + apply Forall_app. split; [exact Hw|]. constructor; [|constructor].
      apply FrameData_advertised_wired; reflexivity.
Qed.

(** *** Centre-of-mass targets *)

Lemma merged_coms_handles (prefix name : string)
  (c : CenterOfMassComputationPtr_t) (option : ComputationOption)
  (coms : list COM.t) :
  map COM.com (merged_coms prefix name c option coms) = map COM.com coms.
Proof.
  induction coms as [|x rest IH]; simpl; [reflexivity|].
  destruct (Nat.eqb (COM.com x) c); simpl.
  - reflexivity.
  - now rewrite IH.
Qed.

Lemma has_com_false_not_in (c : CenterOfMassComputationPtr_t)
  (coms : list COM.t) :
  has_com c coms = false -> ~ In c (map COM.com coms).
Proof.
  unfold has_com. induction coms as [|x rest IH]; simpl.
  - intros _ [].
  - intros H. apply orb_false_elim in H as [Hx Hr].
    apply Nat.eqb_neq in Hx. intros [E|Hin]; [now apply Hx|].
    now apply IH.
Qed.

Lemma COM_advertised_wired (prefix name : string) (c : COM.t) :
  (has_option (COM.option c) Position = false ->
   Publisher_valid (COM.pubQ c) = false) ->
  (has_option (COM.option c) Derivative = false ->
   Publisher_valid (COM.pubV c) = false) ->
  com_wired (COM_advertised prefix name c).
Proof.
  unfold com_wired, COM_advertised. simpl. intros HQ HV.
  destruct (has_option (COM.option c) Position);
    destruct (has_option (COM.option c) Derivative);
    split; auto.
Qed.

Lemma merged_coms_wired (prefix name : string)
  (c : CenterOfMassComputationPtr_t) (option : ComputationOption)
  (coms : list COM.t) :
  Forall com_wired coms ->
  Forall com_wired (merged_coms prefix name c option coms).
Proof.
  induction 1 as [|x rest [HQ HV] Hrest IH]; simpl; [constructor|].
  destruct (Nat.eqb (COM.com x) c).
  - constructor; [|exact Hrest].
    apply COM_advertised_wired; simpl; rewrite has_option_lor;
      intros H; apply orb_false_elim in H as [H _]; congruence.
  - constructor; [now split|exact IH].
Qed.

Lemma registered_coms_consistent (prefix name : string)
  (c : CenterOfMassComputationPtr_t) (option : ComputationOption)
  (coms : list COM.t) :
  NoDup (map COM.com coms) ->
  Forall com_wired coms ->
  NoDup (map COM.com (registered_coms prefix name c option coms))
  /\ Forall com_wired (registered_coms prefix name c option coms).
Proof.
  intros Hnd Hw. unfold registered_coms.
  destruct (has_com c coms) eqn:Hc.
  - rewrite merged_coms_handles. split; [exact Hnd|].
    now apply merged_coms_wired.
  - split.
    + rewrite map_app. apply NoDup_app; [exact Hnd| |].
      * simpl. constructor; [intros []|constructor].
      * intros a Ha [E|[]]. simpl in E. subst a.
        now apply (has_com_false_not_in _ _ Hc).
    + apply Forall_app. split; [exact Hw|]. constructor; [|constructor].
      apply COM_advertised_wired; reflexivity.
Qed.

Lemma perform_consistent (s : Discretization) (c : Call) :
  consistent s -> consistent (perform s c).
Proof.
  intros (Hf & Hc & Hwf & Hwc & Hno & Hpub).
  destruct c as [time|name c option|name option| |names|b name an| ];
    simpl perform.
  - destruct (compute_same_configuration time s)
      as (_ & _ & _ & _ & _ & Efr & Eco & Eh & _ & EQ & EV & EA).
    unfold consistent. rewrite Efr, Eco, Eh, EQ, EV, EA.
    repeat split; try assumption; try apply Hno; try apply Hpub; auto.
  - rewrite addCenterOfMass_final.
    destruct (handle_ s) as [h|] eqn:Hh.
    + destruct (registered_coms_consistent (topicPrefix_ s) name c option
                  Hc Hwc) as [Hc' Hwc'].
      unfold consistent. simpl. rewrite Hh.
      repeat split; try assumption; try discriminate;
        apply Hpub; discriminate.
    + unfold consistent. rewrite Hh. repeat split; auto;
        try apply Hno; auto; contradiction.
  - rewrite addOperationalFrame_final.
    destruct (handle_ s) as [h|] eqn:Hh.
    + destruct (existFrame (device_ s) name).
      * destruct (registered_frames_consistent (topicPrefix_ s) name
                    (getFrameId (device_ s) name) option Hf Hwf)
          as [Hf' Hwf'].
        unfold consistent. simpl. rewrite Hh.
        repeat split; try assumption; try discriminate;
          apply Hpub; discriminate.
      * unfold consistent. rewrite Hh.
        repeat split; try assumption; try discriminate;
          apply Hpub; discriminate.
    + unfold consistent. rewrite Hh. repeat split; auto;
        try apply Hno; auto; contradiction.
  - rewrite resetTopics_eq. unfold final, consistent. simpl.
    repeat split; try constructor; apply Hpub; assumption.
  - rewrite setJointNames_eq. unfold final, consistent, with_joints. simpl.
    repeat split; try assumption; try apply Hno; try apply Hpub; auto.
  - rewrite initializeRosNode_eq. unfold final, consistent. simpl.
    destruct (handle_ s) as [h|] eqn:Hh; simpl.
    + rewrite Hh. repeat split; try assumption; discriminate.
    + destruct (Hno eq_refl) as [E1 E2]. rewrite E1, E2 in *.
      repeat split; try assumption; discriminate.
  - rewrite shutdownRos_final.
    destruct (handle_ s) as [h|] eqn:Hh.
    + unfold consistent. simpl.
      repeat split; try constructor; contradiction.
    + unfold consistent. rewrite Hh. repeat split; auto;
        try apply Hno; auto; contradiction.
Qed.

Lemma perform_all_consistent (l : list Call) :
  forall s, consistent s -> consistent (perform_all l s).
Proof.
  unfold perform_all.
  induction l as [|c l IH]; intros s Hs; simpl; [exact Hs|].
  apply IH. now apply perform_consistent.
Qed.

Lemma constructed_consistent (s : Discretization) :
  handle_ s = None -> frames_ s = [] -> coms_ s = [] -> consistent s.
Proof.
  intros Hh Hf Hc. unfold consistent. rewrite Hh, Hf, Hc. simpl.
  repeat split; try constructor; contradiction.
Qed.

End Consistency.

Section ConsistencyProperties.
Context {S : Scalar} {P : Pinocchio}.

Lemma publish_frame_advertised (d : DeviceData) (f : FrameData.t) :
  frame_wired f ->
  Forall (fun e => on_advertised e = true) (publish_frame d f).
Proof.
  intros [HQ HV]. unfold publish_frame. apply Forall_app. split.
  - destruct (has_option (FrameData.option f) Position);
      repeat constructor. exact HQ.
  - destruct (has_option (FrameData.option f) Derivative);
      [|constructor].
    destruct (getFrameVelocity d (FrameData.index f)).
    repeat constructor. exact HV.
Qed.

Lemma coms_loop_advertised (v : vector_t) (coms : list COM.t) :
  Forall com_wired coms ->
  forall d,
    Forall (fun e => on_advertised e = true) (snd (coms_loop v coms d)).
Proof.
  induction 1 as [|c coms [HQ HV] _ IH]; intros d; simpl.
  - constructor.
  - specialize (IH (COM_compute c d)).
    destruct (coms_loop v coms (COM_compute c d)) as [d2 t2].
    simpl in *. rewrite <- app_assoc.
    apply Forall_app. split; [|apply Forall_app; split; [|exact IH]].
    + destruct (has_option (COM.option c) Position);
        repeat constructor. exact HQ.
    + destruct (has_option (COM.option c) Derivative);
        repeat constructor. exact HV.
Qed.

Lemma published_advertised (s : Discretization) :
  consistent s -> handle_ s <> None ->
  Forall (fun e => on_advertised e = true) (published s).
Proof.
  intros (_ & _ & Hwf & Hwc & _ & Hpub) Hh.
  destruct (Hpub Hh) as (HQ & HV & HA).
  unfold published. cbv zeta.
  repeat (apply Forall_cons; [assumption|]). simpl.
  apply Forall_app. split.
  - apply Forall_flat_map. revert Hwf. apply Forall_impl.
    intros f. apply publish_frame_advertised.
  - now apply coms_loop_advertised.
Qed.

Lemma sampled_consistent (path : Path) (time : value_type)
  (s : Discretization) :
  consistent s -> consistent (sampled path time s).
Proof. intros H. exact H. Qed.

Lemma compute_advertised (time : value_type) (s : Discretization) :
  consistent s -> handle_ s <> None ->
  Forall (fun e => on_advertised e = true) (calls (compute time s)).
Proof.
  intros Hs Hh.
  destruct (path_ s) as [path|] eqn:Hp.
  - destruct (snd (eval path (q_ (resized s)) time)) eqn:Hev.
    + rewrite (compute_success time s Hp Hev). unfold calls. cbn [snd].
      constructor; [reflexivity|]. apply Forall_app. split.
      * apply published_advertised; [|exact Hh].
        now apply sampled_consistent.
      * repeat constructor.
    + rewrite (compute_eval_failed time s Hp Hev). repeat constructor.
  - rewrite (compute_no_path time s Hp). repeat constructor.
Qed.

(** X3.  Every call keeps the object consistent, and so does every
    sequence of calls on an object that starts without a node handle and
    without targets: no two frame targets have the same frame index, no
    two centre-of-mass targets the same handle; each target holds an
    advertised publisher for exactly the Position and Derivative bits of
    its mode; there are targets only while there is a node handle; and
    while there is one the three whole-body publishers are advertised. *)
Theorem calls_keep_the_object_consistent :
  (forall (s : Discretization) (c : Call),
     consistent s -> consistent (perform s c))
  /\ (forall (s0 : Discretization) (l : list Call),
        handle_ s0 = None -> frames_ s0 = [] -> coms_ s0 = [] ->
        consistent (perform_all l s0)).
Proof.
  split.
  - apply perform_consistent.
  - intros s0 l Hh Hf Hc. apply perform_all_consistent.
    now apply constructed_consistent.
Qed.

(** X4.  After any sequence of calls on an object that starts without a
    node handle and without targets, if the node handle is set then
    [compute] publishes on advertised publishers only, whatever its
    outcome: never on a default-constructed or shut-down one. *)
Theorem compute_publishes_on_advertised_publishers
  (s0 : Discretization) (l : list Call) (time : value_type) :
  handle_ s0 = None -> frames_ s0 = [] -> coms_ s0 = [] ->
  handle_ (perform_all l s0) <> None ->
  Forall (fun e => on_advertised e = true)
    (calls (compute time (perform_all l s0))).
Proof.
  intros Hh Hf Hc Hh'. apply compute_advertised; [|exact Hh'].
  apply perform_all_consistent. now apply constructed_consistent.
Qed.

End ConsistencyProperties.

(** ** The whole-body channels *)

Section WholeBodyChannels.
Context {S : Scalar} {P : Pinocchio}.

Lemma perform_topicPrefix (s : Discretization) (c : Call) :
  topicPrefix_ (perform s c) = topicPrefix_ s.
Proof.
  destruct c as [time|name c option|name option| |names|b name an| ];
    simpl perform.
  - now destruct (compute_same_configuration time s)
      as (_ & _ & _ & _ & _ & _ & _ & _ & E & _).
  - rewrite addCenterOfMass_final. now destruct (handle_ s).
  - rewrite addOperationalFrame_final.
    destruct (handle_ s); [|reflexivity].
    now destruct (existFrame (device_ s) name).
  - reflexivity.
  - now rewrite setJointNames_eq.
  - rewrite initializeRosNode_eq. unfold final. simpl.
    now destruct (handle_ s).
  - rewrite shutdownRos_final. now destruct (handle_ s).
Qed.

Lemma perform_whole_body_channels (s : Discretization) (c : Call) :
  whole_body_channels s -> whole_body_channels (perform s c).
Proof.
  unfold whole_body_channels. intros Hs.
  rewrite perform_topicPrefix.
  destruct c as [time|name c option|name option| |names|b name an| ];
    simpl perform.
  - destruct (compute_same_configuration time s)
      as (_ & _ & _ & _ & _ & _ & _ & Eh & _ & EQ & EV & EA).
    rewrite Eh, EQ, EV, EA. exact Hs.
  - rewrite addCenterOfMass_final.
    destruct (handle_ s) eqn:Hh; simpl; rewrite ?Hh; intros H;
      try (now contradiction H); apply Hs; discriminate.
  - rewrite addOperationalFrame_final.
    destruct (handle_ s) eqn:Hh;
      [destruct (existFrame (device_ s) name)|];
      simpl; rewrite ?Hh; intros H;
      try (now contradiction H); apply Hs; discriminate.
  - exact Hs.
  - rewrite setJointNames_eq. exact Hs.
  - rewrite initializeRosNode_eq. unfold final. simpl. intros _.
    repeat split.
  - rewrite shutdownRos_final.
    destruct (handle_ s) eqn:Hh; simpl; rewrite ?Hh; intros H;
      now contradiction H.
Qed.

Lemma perform_all_whole_body_channels (l : list Call) :
  forall s, whole_body_channels s -> whole_body_channels (perform_all l s).
Proof.
  unfold perform_all.
  induction l as [|c l IH]; intros s Hs; simpl; [exact Hs|].
  apply IH. now apply perform_whole_body_channels.
Qed.

Lemma whole_body_channels_distinct (s : Discretization) :
  whole_body_channels s -> handle_ s <> None ->
  pubQ s <> pubV s /\ pubQ s <> pubA s /\ pubV s <> pubA s.
Proof.
  intros Hs Hh. destruct (Hs Hh) as (HQ & HV & HA).
  rewrite HQ, HV, HA.
  repeat split; intros H; injection H as H;
    apply append_inj_r in H; discriminate.
Qed.

(** C2, as the code has it.  A successful [compute] publishes, first of
    all and in this order, the position on [pubQ], the velocity on [pubV]
    and the acceleration on [pubA].  The position is the row view of the
    sampled configuration, preceded when the free-flyer flag is set by
    the translation of [oMi[1]], the placement of joint 1 of the model
    whichever named joint set the flag, and the Euler angles (axes 2, 1,
    0, that is Z, Y, X) of its rotation; velocity and acceleration are
    the velocity row view of the sampled velocity and acceleration,
    preceded by as many zeros.  The lengths are 6 or 0 plus the size of
    the row view.  [initializeRosNode] puts the three publishers on three
    different topics, and when the state of the call is reached by calls
    on an object that started without a node handle and the node handle
    is set, [pubQ], [pubV] and [pubA] are on these topics, hence
    different. *)
Theorem compute_whole_body_messages
  (time : value_type) (s : Discretization) (path : Path) :
  path_ s = Some path ->
  snd (eval path (Eigen_resize (q_ s) (configSize (device_ s))) time)
  = true ->
  let q := fst (eval path (Eigen_resize (q_ s) (configSize (device_ s)))
                  time) in
  let v := derivative path (Eigen_resize (v_ s) (numberDof (device_ s)))
             time 1 in
  let a := derivative path (Eigen_resize (a_ s) (numberDof (device_ s)))
             time 2 in
  let d := forwardKinematics (device_ s) q v in
  let floating :=
    if hasFreeflyer_ s then
      vector3_data (translation (oMi d 1))
      ++ vector3_data (eulerAngles (rotation (oMi d 1)) 2 1 0)
    else [] in
  let n := if hasFreeflyer_ s then 6 else 0 in
  let qmsg := floating ++ rview (qView_ s) q in
  let vmsg := repeat zero n ++ rview (vView_ s) v in
  let amsg := repeat zero n ++ rview (vView_ s) a in
  result (compute time s) = Returned tt
  /\ (exists rest,
        calls (compute time s) =
        Lock :: Publish (pubQ s) (Vector qmsg)
             :: Publish (pubV s) (Vector vmsg)
             :: Publish (pubA s) (Vector amsg) :: rest)
  /\ length floating = n
  /\ length qmsg = n + RowBlockIndices.nbIndices (qView_ s)
  /\ length vmsg = n + RowBlockIndices.nbIndices (vView_ s)
  /\ length amsg = n + RowBlockIndices.nbIndices (vView_ s)
  /\ (forall isInitialized name anonymous s0,
        let s1 := final (initializeRosNode isInitialized name anonymous s0) in
        pubQ s1 <> pubV s1 /\ pubQ s1 <> pubA s1 /\ pubV s1 <> pubA s1)
  /\ (forall (s0 : Discretization) (l : list Call),
        handle_ s0 = None ->
        s = perform_all l s0 ->
        handle_ s <> None ->
        pubQ s = Publisher_on (topicPrefix_ s0 ++ "position")
        /\ pubV s = Publisher_on (topicPrefix_ s0 ++ "velocity")
        /\ pubA s = Publisher_on (topicPrefix_ s0 ++ "acceleration")
        /\ pubQ s <> pubV s /\ pubQ s <> pubA s /\ pubV s <> pubA s).
Proof.
  intros Hp Hev q v a d floating n qmsg vmsg amsg.
  assert (Hfl : length floating = n).
  { unfold floating, n. destruct (hasFreeflyer_ s); [|reflexivity].
    apply freeflyer_prefix_length. }
  split; [|split; [|split; [|split; [|split; [|split; [|split]]]]]].
  - now rewrite (compute_success time s Hp Hev).
  - rewrite (compute_success time s Hp Hev). unfold calls, published.
    cbv zeta. simpl snd.
    eexists. rewrite <- ?app_comm_cons. simpl app.
    rewrite position_data_layout, velocity_data_layout.
    rewrite acceleration_data_layout by apply rview_length.
    reflexivity.
  - exact Hfl.
  - unfold qmsg. now rewrite length_app, rview_length, Hfl.
  - unfold vmsg. now rewrite length_app, rview_length, repeat_length.
  - unfold amsg. now rewrite length_app, rview_length, repeat_length.
  - intros. apply initializeRosNode_distinct.
  - intros s0 l Hh0 Es Hh.
    assert (Hs : whole_body_channels s).
    { rewrite Es. apply perform_all_whole_body_channels.
      intros H. contradiction. }
    assert (Ep : topicPrefix_ s = topicPrefix_ s0).
    { rewrite Es. clear. revert s0. unfold perform_all.
      induction l as [|c l IH]; intros s0; simpl; [reflexivity|].
      now rewrite IH, perform_topicPrefix. }
    destruct (Hs Hh) as (HQ & HV & HA). rewrite Ep in HQ, HV, HA.
    destruct (whole_body_channels_distinct Hs Hh) as (D1 & D2 & D3).
    repeat split; assumption.
Qed.

End WholeBodyChannels.

(** ** Registration, call by call *)

Section RegistrationCalls.
Context {S : Scalar} {P : Pinocchio}.

Lemma FrameData_initPublishers_eq (prefix name : string) (f : FrameData.t) :
  FrameData_initPublishers prefix name f
  = (FrameData_advertised prefix name f,
     FrameData_advertisements prefix name (FrameData.option f)).
Proof.
  unfold FrameData_initPublishers, FrameData_advertised,
    FrameData_advertisements, advertise.
  destruct f as [i o pq pv]. simpl.
  destruct (has_option o Position); simpl;
    destruct (has_option o Derivative); reflexivity.
Qed.

Lemma addOperationalFrame_loop_eq (prefix name : string)
  (index : FrameIndex) (option : ComputationOption)
  (frames : list FrameData.t) :
  has_frame index frames = true ->
  addOperationalFrame_loop prefix name index option frames
  = Some (merged_frames prefix name index option frames,
          FrameData_advertisements prefix name
            (widened (frame_mode_of index frames) option)).
Proof.
  unfold has_frame, widened.
  induction frames as [|x rest IH]; simpl; [discriminate|].
  destruct (Nat.eqb (FrameData.index x) index) eqn:Hx; simpl.
  - intros _. now rewrite FrameData_initPublishers_eq.
  - intros H. now rewrite (IH H).
Qed.

(** [addOperationalFrame] in full, by cases. *)
Lemma addOperationalFrame_eq (name : string) (option : ComputationOption)
  (s : Discretization) :
  addOperationalFrame name option s =
  match handle_ s with
  | None => (Thrown (logic_error "Initialize ROS first"), s, [])
  | Some _ =>
      if existFrame (device_ s) name then
        let index := getFrameId (device_ s) name in
        (Returned true,
         set_frames_
           (registered_frames (topicPrefix_ s) name index option
              (frames_ s)) s,
         FrameData_advertisements (topicPrefix_ s) name
           (if has_frame index (frames_ s)
            then widened (frame_mode_of index (frames_ s)) option
            else option))
      else (Returned false, s, [])
  end.
Proof.
  unfold addOperationalFrame, bind, get, throw, ret. simpl.
  destruct (handle_ s) as [h|]; [|reflexivity].
  destruct (existFrame (device_ s) name); simpl; [|reflexivity].
  unfold registered_frames.
  destruct (has_frame (getFrameId (device_ s) name) (frames_ s)) eqn:Hf.
  - rewrite (@addOperationalFrame_loop_eq (topicPrefix_ s) name _ option
               _ Hf).
    simpl. now rewrite app_nil_r.
  - rewrite (@addOperationalFrame_loop_absent _ (topicPrefix_ s) name _
               option _ Hf).
    rewrite FrameData_initPublishers_eq. simpl. now rewrite app_nil_r.
Qed.

Lemma has_option_Acceleration (o flag : ComputationOption) :
  flag = Position \/ flag = Derivative ->
  has_option (Z.lor o Acceleration) flag = has_option o flag.
Proof.
  intros [-> | ->]; rewrite has_option_lor; simpl; apply orb_false_r.
Qed.

Lemma FrameData_advertisements_Acceleration (prefix name : string)
  (o : ComputationOption) :
  FrameData_advertisements prefix name (Z.lor o Acceleration)
  = FrameData_advertisements prefix name o.
Proof.
  unfold FrameData_advertisements.
  now rewrite !has_option_Acceleration by auto.
Qed.

Lemma same_output_refl (f : FrameData.t) : same_output f f.
Proof. repeat split. Qed.

Lemma same_output_publish (d : DeviceData) (f f' : FrameData.t) :
  same_output f f' -> publish_frame d f' = publish_frame d f.
Proof.
  intros (Hi & HQ & HV & HP & HD). unfold publish_frame.
  now rewrite Hi, HQ, HV, HP, HD.
Qed.

Lemma same_output_flat_map (d : DeviceData) (l l' : list FrameData.t) :
  Forall2 same_output l l' ->
  flat_map (publish_frame d) l' = flat_map (publish_frame d) l.
Proof.
  induction 1 as [|f f' l l' Hf _ IH]; simpl; [reflexivity|].
  now rewrite (same_output_publish d Hf), IH.
Qed.

Lemma Forall2_same_output_refl (l : list FrameData.t) :
  Forall2 same_output l l.
Proof.
  induction l; constructor; [apply same_output_refl|assumption].
Qed.

Lemma advertised_Acceleration (prefix name : string) (i : FrameIndex)
  (o : ComputationOption) (pq pv : Publisher) :
  same_output
    (FrameData_advertised prefix name (FrameData.Build i o pq pv))
    (FrameData_advertised prefix name
       (FrameData.Build i (Z.lor o Acceleration) pq pv)).
Proof.
  unfold same_output, FrameData_advertised. simpl.
  rewrite !has_option_Acceleration by auto. repeat split.
Qed.

Lemma merged_frames_Acceleration (prefix name : string)
  (index : FrameIndex) (option : ComputationOption)
  (frames : list FrameData.t) :
  Forall2 same_output
    (merged_frames prefix name index option frames)
    (merged_frames prefix name index (Z.lor option Acceleration) frames).
Proof.
  induction frames as [|x rest IH]; simpl; [constructor|].
  destruct (Nat.eqb (FrameData.index x) index).
  - constructor; [|apply Forall2_same_output_refl].
    rewrite Z.lor_assoc. apply advertised_Acceleration.
  - constructor; [apply same_output_refl|exact IH].
Qed.

Lemma registered_frames_Acceleration (prefix name : string)
  (index : FrameIndex) (option : ComputationOption)
  (frames : list FrameData.t) :
  Forall2 same_output
    (registered_frames prefix name index option frames)
    (registered_frames prefix name index (Z.lor option Acceleration)
       frames).
Proof.
  unfold registered_frames. destruct (has_frame index frames).
  - apply merged_frames_Acceleration.
  - apply Forall2_app; [apply Forall2_same_output_refl|].
    constructor; [|constructor]. apply advertised_Acceleration.
Qed.

(** X5.  For a frame target the Acceleration bit changes nothing that
    can be observed: registering a frame with a mode or with that mode
    and the Acceleration bit gives the same outcome and the same calls to
    [advertise], and whatever the device data the loop of [compute] over
    the frame targets publishes the same messages on the same publishers
    afterwards. *)
Theorem frame_targets_ignore_Acceleration
  (name : string) (option : ComputationOption) (s : Discretization) :
  let r := addOperationalFrame name option s in
  let r' := addOperationalFrame name (Z.lor option Acceleration) s in
  result r' = result r
  /\ calls r' = calls r
  /\ (forall d,
        flat_map (publish_frame d) (frames_ (final r'))
        = flat_map (publish_frame d) (frames_ (final r))).
Proof.
  intros r r'. unfold r, r'. rewrite !addOperationalFrame_eq.
  destruct (handle_ s) as [h|]; [|repeat split].
  destruct (existFrame (device_ s) name); [|repeat split].
  cbv zeta. unfold result, calls, final. simpl.
  split; [reflexivity|]. split.
  - destruct (has_frame (getFrameId (device_ s) name) (frames_ s)).
    + unfold widened. rewrite Z.lor_assoc.
      apply FrameData_advertisements_Acceleration.
    + apply FrameData_advertisements_Acceleration.
  - intros d. apply same_output_flat_map.
    apply registered_frames_Acceleration.
Qed.

(** X6.  A registration of a frame that goes through makes one call to
    [advertise] for each Position or Derivative bit of the mode the
    target has afterwards, under the name given, also for the bits the
    target had before: its publishers are replaced.  A mode without
    these two bits advertises nothing. *)
Theorem addOperationalFrame_advertises_the_widened_mode
  (name : string) (option : ComputationOption) (s : Discretization) :
  handle_ s <> None ->
  existFrame (device_ s) name = true ->
  let index := getFrameId (device_ s) name in
  let mode :=
    if has_frame index (frames_ s)
    then Z.lor (frame_mode_of index (frames_ s)) option else option in
  calls (addOperationalFrame name option s) =
  (if has_option mode Position
   then [Advertise (topicPrefix_ s ++ "op_frame/" ++ name) queue_size false]
   else [])
  ++ (if has_option mode Derivative
      then [Advertise (topicPrefix_ s ++ "velocity/op_frame/" ++ name)
              queue_size false]
      else [])
  /\ length (calls (addOperationalFrame name option s)) = channels mode
  /\ (has_option mode Position = false ->
      has_option mode Derivative = false ->
      calls (addOperationalFrame name option s) = []).
Proof.
  intros Hh He index mode.
  assert (E : calls (addOperationalFrame name option s)
              = FrameData_advertisements (topicPrefix_ s) name mode).
  { rewrite addOperationalFrame_eq.
    destruct (handle_ s) as [h|]; [clear Hh|contradiction].
    rewrite He. reflexivity. }
  rewrite E. clearbody mode.
  unfold FrameData_advertisements, channels.
  destruct (has_option mode Position);
    destruct (has_option mode Derivative);
    repeat split; intros; try discriminate; reflexivity.
Qed.

End RegistrationCalls.

(** ** The transport: start, stop and registration around them *)

Section Transport.
Context {S : Scalar} {P : Pinocchio}.

Lemma addCenterOfMass_eq (name : string)
  (c : CenterOfMassComputationPtr_t) (option : ComputationOption)
  (s : Discretization) :
  addCenterOfMass name c option s =
  match handle_ s with
  | None => (Thrown (logic_error "Initialize ROS first"), s, [])
  | Some _ =>
      (Returned true,
       set_coms_ (registered_coms (topicPrefix_ s) name c option (coms_ s))
         s,
       registration_calls (topicPrefix_ s) name c option (coms_ s))
  end.
Proof.
  destruct (handle_ s) as [h|] eqn:Hh.
  - apply addCenterOfMass_registered. rewrite Hh. discriminate.
  - unfold addCenterOfMass, bind, get, throw. simpl. now rewrite Hh.
Qed.

Lemma merged_coms_length (prefix name : string)
  (c : CenterOfMassComputationPtr_t) (option : ComputationOption)
  (coms : list COM.t) :
  length (merged_coms prefix name c option coms) = length coms.
Proof.
  induction coms as [|x rest IH]; simpl; [reflexivity|].
  destruct (Nat.eqb (COM.com x) c); simpl; [reflexivity|now rewrite IH].
Qed.

(** X7.  Without a node handle [addCenterOfMass] throws the logic error
    "Initialize ROS first" and leaves the object as it was, without any
    call.  With one it changes nothing but the list of centre-of-mass
    targets, which keeps its length when the handle is registered already
    and grows by one target at its end otherwise; the frame targets are
    never touched. *)
Theorem addCenterOfMass_error_and_frame
  (name : string) (c : CenterOfMassComputationPtr_t)
  (option : ComputationOption) (s : Discretization) :
  (handle_ s = None ->
   addCenterOfMass name c option s
   = (Thrown (logic_error "Initialize ROS first"), s, []))
  /\ (handle_ s <> None ->
      let s1 := final (addCenterOfMass name c option s) in
      s1 = set_coms_ (coms_ s1) s
      /\ frames_ s1 = frames_ s
      /\ (has_com c (coms_ s) = true ->
          length (coms_ s1) = length (coms_ s))
      /\ (has_com c (coms_ s) = false ->
          exists target,
            coms_ s1 = coms_ s ++ [target]
            /\ COM.com target = c /\ COM.option target = option)).
Proof.
  rewrite addCenterOfMass_eq. split.
  - intros Hh. now rewrite Hh.
  - intros Hh. destruct (handle_ s) as [h|]; [clear Hh|contradiction].
    unfold final. simpl. unfold registered_coms.
    split; [reflexivity|]. split; [reflexivity|]. split.
    + intros Hc. rewrite Hc. apply merged_coms_length.
    + intros Hc. rewrite Hc. eexists. repeat split.
Qed.

(** X8.  [initializeRosNode] returns true exactly when there was no node
    handle; it calls [ros::init] exactly when ROS was not initialized
    yet; it always advertises the three whole-body topics, in the order
    position, velocity, acceleration, and touches no target.  A second
    call, whatever its arguments, returns false and leaves the state the
    first one left. *)
Theorem initializeRosNode_twice
  (isInitialized isInitialized' : bool) (name name' : string)
  (anonymous anonymous' : bool) (s : Discretization) :
  let r := initializeRosNode isInitialized name anonymous s in
  let r' := initializeRosNode isInitialized' name' anonymous' (final r) in
  (result r = Returned true <-> handle_ s = None)
  /\ (In (RosInit name anonymous) (calls r) <-> isInitialized = false)
  /\ advertised_topics (calls r) =
     [(topicPrefix_ s ++ "position")%string;
      (topicPrefix_ s ++ "velocity")%string;
      (topicPrefix_ s ++ "acceleration")%string]
  /\ handle_ (final r) <> None
  /\ frames_ (final r) = frames_ s /\ coms_ (final r) = coms_ s
  /\ result r' = Returned false
  /\ final r' = final r
  /\ advertised_topics (calls r') = advertised_topics (calls r).
Proof.
  intros r r'. unfold r', r. rewrite !initializeRosNode_eq.
  unfold result, final, calls. simpl.
  destruct (handle_ s) as [h|] eqn:Hh; simpl; rewrite ?Hh;
    destruct isInitialized, isInitialized'; simpl;
    repeat split; try reflexivity; try discriminate;
    try (intros H; discriminate H);
    try (intros H; repeat (destruct H as [H|H]; try discriminate H);
         contradiction);
    try (intros _; now left).
Qed.

(** X9.  With a node handle, [shutdownRos] leaves no handle, no target
    and three shut-down publishers, and does not touch the row views, the
    flag or the path.  After it a second [shutdownRos] does nothing, both
    registration functions throw, [initializeRosNode] returns true again,
    and [compute], which does not look at the handle, still publishes,
    every message on a shut-down publisher. *)
Theorem shutdownRos_tears_down (s : Discretization) :
  handle_ s <> None ->
  let s1 := final (shutdownRos s) in
  result (shutdownRos s) = Returned tt
  /\ handle_ s1 = None /\ frames_ s1 = [] /\ coms_ s1 = []
  /\ pubQ s1 = Publisher_invalid /\ pubV s1 = Publisher_invalid
  /\ pubA s1 = Publisher_invalid
  /\ qView_ s1 = qView_ s /\ vView_ s1 = vView_ s
  /\ hasFreeflyer_ s1 = hasFreeflyer_ s /\ path_ s1 = path_ s
  /\ shutdownRos s1 = (Returned tt, s1, [])
  /\ (forall name option,
        addOperationalFrame name option s1
        = (Thrown (logic_error "Initialize ROS first"), s1, []))
  /\ (forall name c option,
        addCenterOfMass name c option s1
        = (Thrown (logic_error "Initialize ROS first"), s1, []))
  /\ (forall isInitialized name anonymous,
        result (initializeRosNode isInitialized name anonymous s1)
        = Returned true)
  /\ (forall time e,
        In e (calls (compute time s1)) ->
        match e with
        | Publish p _ => p = Publisher_invalid
        | _ => True
        end)
  /\ (forall time path,
        path_ s = Some path ->
        snd (eval path (Eigen_resize (q_ s) (configSize (device_ s))) time)
        = true ->
        length (filter is_Publish (calls (compute time s1))) = 3).
Proof.
  intros Hh s1. unfold s1. rewrite (shutdownRos_eq s Hh).
  unfold result, final. simpl fst. simpl snd.
  set (s2 := set_handle_ None _).
  repeat (split; [reflexivity|]).
  split; [intros b name an; rewrite initializeRosNode_eq; reflexivity|].
  split.
  - intros time e Hin.
    destruct (path_ s2) as [path|] eqn:Hp.
    + destruct (snd (eval path (q_ (resized s2)) time)) eqn:Hev.
      * rewrite (compute_success time s2 Hp Hev) in Hin.
        unfold calls, published in Hin. simpl in Hin.
        repeat (destruct Hin as [<-|Hin]; [reflexivity|]).
        contradiction.
      * rewrite (compute_eval_failed time s2 Hp Hev) in Hin.
        simpl in Hin.
        repeat (destruct Hin as [<-|Hin]; [exact I|]). contradiction.
    + rewrite (compute_no_path time s2 Hp) in Hin. simpl in Hin.
      repeat (destruct Hin as [<-|Hin]; [exact I|]). contradiction.
  - intros time path Hp Hev.
    rewrite (@compute_success _ _ time s2 path Hp Hev).
    reflexivity.
Qed.

End Transport.

(** ** Reset, joint names and topics *)

Section ResetAndNames.
Context {S : Scalar} {P : Pinocchio}.

(** X10.  [resetTopics] forgets the modes: a frame, or a centre of
    mass, registered with one mode, reset, and registered again with
    another, is the only target and has the second mode only, with
    publishers for the bits of the second mode only. *)
Theorem registration_after_reset_starts_afresh
  (name name' : string) (c : CenterOfMassComputationPtr_t)
  (m1 m2 : ComputationOption) (s : Discretization) :
  handle_ s <> None ->
  existFrame (device_ s) name = true ->
  let index := getFrameId (device_ s) name in
  let sf :=
    final (addOperationalFrame name m2
             (final (resetTopics
                       (final (addOperationalFrame name m1 s))))) in
  let sc :=
    final (addCenterOfMass name' c m2
             (final (resetTopics
                       (final (addCenterOfMass name' c m1 s))))) in
  frames_ sf =
  [FrameData.Build index m2
     (if has_option m2 Position
      then Publisher_on (topicPrefix_ s ++ "op_frame/" ++ name)
      else Publisher_invalid)
     (if has_option m2 Derivative
      then Publisher_on (topicPrefix_ s ++ "velocity/op_frame/" ++ name)
      else Publisher_invalid)]
  /\ coms_ sf = []
  /\ coms_ sc =
     [COM.Build c m2
        (if has_option m2 Position
         then Publisher_on (topicPrefix_ s ++ "com/" ++ name')
         else Publisher_invalid)
        (if has_option m2 Derivative
         then Publisher_on (topicPrefix_ s ++ "velocity/com/" ++ name')
         else Publisher_invalid)]
  /\ frames_ sc = [].
Proof.
  intros Hh He index sf sc. unfold sf, sc, index.
  rewrite !addOperationalFrame_final, !addCenterOfMass_final.
  rewrite !resetTopics_eq. unfold final. simpl.
  destruct (handle_ s) as [h|] eqn:Hh'; [clear Hh|contradiction].
  rewrite He. simpl. rewrite ?Hh', ?He. simpl. rewrite ?Hh', ?He.
  repeat split.
Qed.

(** X11.  [setJointNames] replaces what an earlier [setJointNames] did:
    calling it with one list of names and then with another leaves the
    state that the second call alone leaves.  With no name at all it
    leaves the flag unset and two empty views, and a successful
    [compute] then publishes three empty whole-body vectors. *)
Theorem setJointNames_replaces
  (names names' : list string) (s : Discretization) :
  final (setJointNames names' (final (setJointNames names s)))
  = final (setJointNames names' s)
  /\ hasFreeflyer_ (final (setJointNames [] s)) = false
  /\ RowBlockIndices.nbIndices (qView_ (final (setJointNames [] s))) = 0
  /\ RowBlockIndices.nbIndices (vView_ (final (setJointNames [] s))) = 0
  /\ (forall time path,
        path_ s = Some path ->
        snd (eval path (Eigen_resize (q_ s) (configSize (device_ s))) time)
        = true ->
        exists rest,
          calls (compute time (final (setJointNames [] s))) =
          Lock :: Publish (pubQ s) (Vector [])
               :: Publish (pubV s) (Vector [])
               :: Publish (pubA s) (Vector []) :: rest).
Proof.
  rewrite !setJointNames_eq. unfold final. simpl.
  repeat split.
  intros time path Hp Hev.
  rewrite (@compute_success _ _ time (with_joints s []) path Hp Hev).
  unfold calls, published. cbv zeta. cbn [snd].
  eexists. rewrite <- ?app_comm_cons. simpl app.
  rewrite position_data_layout, velocity_data_layout.
  rewrite acceleration_data_layout by apply rview_length.
  reflexivity.
Qed.

End ResetAndNames.

(** ** Topics *)

Ltac topic_clash :=
  repeat match goal with
         | H : False |- _ => contradiction
         | H : _ \/ _ |- _ => destruct H
         | H : In _ [] |- _ => contradiction
         | H : In _ (_ :: _) |- _ => destruct H
         | H : (?p ++ _)%string = (?p ++ _)%string |- _ =>
             apply append_inj_r in H; simpl in H; discriminate H
         | H : _ = ?t |- _ => subst t
         end.

Ltac topic_nodup :=
  repeat first
    [ apply NoDup_nil
    | apply NoDup_cons;
      [ let H := fresh "H" in simpl; intros H; topic_clash | ] ].

Ltac topic_same_name Hn :=
  match goal with
  | E : (?p ++ _)%string = (?p ++ _)%string |- _ =>
      apply append_inj_r in E; simpl in E;
      repeat (injection E as E); try (symmetry in E); contradiction
  end.

Section Topics.
Context {S : Scalar} {P : Pinocchio}.

(** X12.  The topics never clash between kinds: for one prefix, the
    three whole-body topics that [initializeRosNode] advertises, the
    topics that [FrameData::initPublishers] advertises and those that
    [COM::initPublishers] advertises are pairwise different, whatever the
    names and the modes, and none is advertised twice by one call.  Two
    frame targets, or two centre-of-mass targets, that are advertised
    under different names get different topics. *)
Theorem topics_of_different_kinds_differ
  (isInitialized : bool) (node : string) (anonymous : bool)
  (s : Discretization) (name name' : string)
  (f f' : FrameData.t) (c c' : COM.t) :
  let prefix := topicPrefix_ s in
  let whole :=
    advertised_topics
      (calls (initializeRosNode isInitialized node anonymous s)) in
  let frame :=
    advertised_topics (snd (FrameData_initPublishers prefix name f)) in
  let com := advertised_topics (snd (COM_initPublishers prefix name' c)) in
  NoDup whole /\ NoDup frame /\ NoDup com
  /\ (forall t, In t whole -> ~ In t frame /\ ~ In t com)
  /\ (forall t, In t frame -> ~ In t com)
  /\ (name <> name' ->
      forall t,
        In t frame ->
        ~ In t (advertised_topics
                  (snd (FrameData_initPublishers prefix name' f'))))
  /\ (name <> name' ->
      forall t,
        In t (advertised_topics (snd (COM_initPublishers prefix name c'))) ->
        ~ In t com).
Proof.
  intros prefix whole frame com.
  unfold whole, frame, com.
  rewrite initializeRosNode_eq, !FrameData_initPublishers_eq,
    !COM_initPublishers_eq.
  unfold calls, FrameData_advertisements, COM_advertisements. cbn [snd].
  fold prefix.
  assert (Hw : advertised_topics
                 ((if isInitialized then [] else [RosInit node anonymous])
                  ++ [Advertise (prefix ++ "position") queue_size false;
                      Advertise (prefix ++ "velocity") queue_size false;
                      Advertise (prefix ++ "acceleration") queue_size false])
               = [(prefix ++ "position")%string;
                  (prefix ++ "velocity")%string;
                  (prefix ++ "acceleration")%string])
    by (destruct isInitialized; reflexivity).
  rewrite Hw. clear Hw.
  split; [|split; [|split; [|split; [|split; [|split]]]]].
  - simpl. topic_nodup.
  - destruct (has_option (FrameData.option f) Position);
      destruct (has_option (FrameData.option f) Derivative);
      simpl; topic_nodup.
  - destruct (has_option (COM.option c) Position);
      destruct (has_option (COM.option c) Derivative);
      simpl; topic_nodup.
  - intros t H.
    destruct (has_option (FrameData.option f) Position);
      destruct (has_option (FrameData.option f) Derivative);
      destruct (has_option (COM.option c) Position);
      destruct (has_option (COM.option c) Derivative);
      simpl in *; split; intros H'; topic_clash.
  - intros t H.
    destruct (has_option (FrameData.option f) Position);
      destruct (has_option (FrameData.option f) Derivative);
      destruct (has_option (COM.option c) Position);
      destruct (has_option (COM.option c) Derivative);
      simpl in *; intros H'; topic_clash.
  - intros Hn t H.
    destruct (has_option (FrameData.option f) Position);
      destruct (has_option (FrameData.option f) Derivative);
      destruct (has_option (FrameData.option f') Position);
      destruct (has_option (FrameData.option f') Derivative);
      simpl in *; intros H'; topic_clash; topic_same_name Hn.
  - intros Hn t H.
    destruct (has_option (COM.option c) Position);
      destruct (has_option (COM.option c) Derivative);
      destruct (has_option (COM.option c') Position);
      destruct (has_option (COM.option c') Derivative);
      simpl in *; intros H'; topic_clash; topic_same_name Hn.
Qed.

(** X13.  [addCenterOfMass] does not look at the name: two different
    handles that are not registered yet, registered under one name with
    the Position bit, give two targets, in this order at the end of the
    list, whose position publishers are on the same topic. *)
Theorem addCenterOfMass_same_name_shares_topic
  (name : string) (c1 c2 : CenterOfMassComputationPtr_t)
  (m1 m2 : ComputationOption) (s : Discretization) :
  handle_ s <> None ->
  c1 <> c2 ->
  has_com c1 (coms_ s) = false ->
  has_com c2 (coms_ s) = false ->
  has_option m1 Position = true ->
  has_option m2 Position = true ->
  let s2 :=
    final (addCenterOfMass name c2 m2
             (final (addCenterOfMass name c1 m1 s))) in
  exists t1 t2,
    coms_ s2 = coms_ s ++ [t1; t2]
    /\ COM.com t1 = c1 /\ COM.com t2 = c2
    /\ COM.option t1 = m1 /\ COM.option t2 = m2
    /\ COM.pubQ t1 = Publisher_on (topicPrefix_ s ++ "com/" ++ name)
    /\ COM.pubQ t2 = COM.pubQ t1.
Proof.
  intros Hh Hc H1 H2 Hp1 Hp2 s2. unfold s2.
  rewrite !addCenterOfMass_final.
  destruct (handle_ s) as [h|] eqn:Hh'; [clear Hh|contradiction].
  simpl. rewrite Hh'. unfold registered_coms.
  rewrite H1. rewrite has_com_app, H2. simpl.
  apply Nat.eqb_neq in Hc. rewrite Hc. simpl.
  rewrite <- app_assoc. simpl.
  do 2 eexists. split; [reflexivity|].
  unfold COM_advertised. simpl. rewrite Hp1, Hp2. repeat split.
Qed.

End Topics.

(** ** From registration to publication *)

Section RegistrationToPublication.
Context {S : Scalar} {P : Pinocchio}.

Lemma publish_com_eq (v : vector_t) (com : COM.t) (d : DeviceData)
  (flag : Computation_t) :
  COM_compute com d = com_compute (COM.com com) d flag ->
  publish_com v com d =
  (com_compute (COM.com com) d flag,
   (if has_option (COM.option com) Position
    then [Publish (COM.pubQ com)
            (Vector3_of
               (com_com (COM.com com)
                  (com_compute (COM.com com) d flag)))]
    else [])
   ++ (if has_option (COM.option com) Derivative
       then [Publish (COM.pubV com)
               (Vector3_of
                  (ComJacobian_mul
                     (com_jacobian (COM.com com)
                        (com_compute (COM.com com) d flag)) v))]
       else [])).
Proof.
  intros E. unfold publish_com. now rewrite E.
Qed.

(** X14.  For the four values that the [switch] of [COM::compute]
    names, what a centre-of-mass target publishes is computed for the
    sample first: with Position, [com->compute] runs with the flag COM
    and the position read after it goes to [pubQ]; with Derivative it
    runs with VELOCITY and the jacobian read after it, times the sampled
    velocity, goes to [pubV]; with PositionAndDerivative it runs with
    COMPUTE_ALL and both are published, position first; with
    Acceleration nothing is computed and nothing is published. *)
Theorem publish_com_named_modes
  (v : vector_t) (com : COM.t) (d : DeviceData) :
  let c := COM.com com in
  (COM.option com = Position ->
   publish_com v com d =
   (com_compute c d pinocchio_COM,
    [Publish (COM.pubQ com)
       (Vector3_of (com_com c (com_compute c d pinocchio_COM)))]))
  /\ (COM.option com = Derivative ->
      publish_com v com d =
      (com_compute c d pinocchio_VELOCITY,
       [Publish (COM.pubV com)
          (Vector3_of
             (ComJacobian_mul
                (com_jacobian c (com_compute c d pinocchio_VELOCITY)) v))]))
  /\ (COM.option com = PositionAndDerivative ->
      publish_com v com d =
      (com_compute c d pinocchio_COMPUTE_ALL,
       [Publish (COM.pubQ com)
          (Vector3_of (com_com c (com_compute c d pinocchio_COMPUTE_ALL)));
        Publish (COM.pubV com)
          (Vector3_of
             (ComJacobian_mul
                (com_jacobian c (com_compute c d pinocchio_COMPUTE_ALL))
                v))]))
  /\ (COM.option com = Acceleration -> publish_com v com d = (d, [])).
Proof.
  intros c. unfold c.
  split; [|split; [|split]]; intros E.
  - rewrite (@publish_com_eq v com d pinocchio_COM)
      by (unfold COM_compute; now rewrite E).
    now rewrite E.
  - rewrite (@publish_com_eq v com d pinocchio_VELOCITY)
      by (unfold COM_compute; now rewrite E).
    now rewrite E.
  - rewrite (@publish_com_eq v com d pinocchio_COMPUTE_ALL)
      by (unfold COM_compute; now rewrite E).
    now rewrite E.
  - unfold publish_com, COM_compute. now rewrite E.
Qed.

Lemma addOperationalFrame_twice_frames (name : string)
  (m1 m2 : ComputationOption) (s : Discretization) :
  handle_ s <> None ->
  existFrame (device_ s) name = true ->
  has_frame (getFrameId (device_ s) name) (frames_ s) = false ->
  final (addOperationalFrame name m2
           (final (addOperationalFrame name m1 s)))
  = set_frames_
      (frames_ s ++
       [FrameData.Build (getFrameId (device_ s) name) (Z.lor m1 m2)
          (if has_option (Z.lor m1 m2) Position
           then Publisher_on (topicPrefix_ s ++ "op_frame/" ++ name)
           else Publisher_invalid)
          (if has_option (Z.lor m1 m2) Derivative
           then Publisher_on
                  (topicPrefix_ s ++ "velocity/op_frame/" ++ name)
           else Publisher_invalid)])
      s.
Proof.
  intros Hh He Hf. rewrite !addOperationalFrame_final.
  destruct (handle_ s) as [h|] eqn:Hh'; [clear Hh|contradiction].
  rewrite He. simpl. rewrite Hh', He.
  unfold registered_frames. rewrite Hf.
  rewrite has_frame_app, Hf. simpl. rewrite Nat.eqb_refl. simpl.
  rewrite merged_frames_app_absent by exact Hf.
  simpl. rewrite Nat.eqb_refl.
  unfold set_frames_. simpl. f_equal. f_equal. f_equal.
  unfold FrameData_advertised. simpl. rewrite !has_option_lor.
  destruct (has_option m1 Position), (has_option m2 Position),
    (has_option m1 Derivative), (has_option m2 Derivative); reflexivity.
Qed.

(** X15.  Registration reaches publication: after a frame that was not
    registered is registered twice, with two modes, a successful
    [compute] publishes its pose on the topic op_frame/name under the
    prefix when one of the two modes has the Position bit, and the six
    scalars of its velocity on velocity/op_frame/name when one of them
    has the Derivative bit. *)
Theorem widened_frame_is_published
  (name : string) (m1 m2 : ComputationOption) (time : value_type)
  (s : Discretization) (path : Path) :
  handle_ s <> None ->
  existFrame (device_ s) name = true ->
  has_frame (getFrameId (device_ s) name) (frames_ s) = false ->
  path_ s = Some path ->
  snd (eval path (Eigen_resize (q_ s) (configSize (device_ s))) time)
  = true ->
  let index := getFrameId (device_ s) name in
  let s2 := final (addOperationalFrame name m2
                     (final (addOperationalFrame name m1 s))) in
  let q := fst (eval path (Eigen_resize (q_ s) (configSize (device_ s)))
                  time) in
  let v := derivative path (Eigen_resize (v_ s) (numberDof (device_ s)))
             time 1 in
  let d := forwardKinematics (device_ s) q v in
  (has_option m1 Position || has_option m2 Position = true ->
   In (Publish (Publisher_on (topicPrefix_ s ++ "op_frame/" ++ name))
         (Transform (translation (oMf d index))
            (Quaternion (rotation (oMf d index)))))
      (calls (compute time s2)))
  /\ (has_option m1 Derivative || has_option m2 Derivative = true ->
      exists data,
        In (Publish
              (Publisher_on (topicPrefix_ s ++ "velocity/op_frame/" ++ name))
              (Vector data))
           (calls (compute time s2))
        /\ length data = 6).
Proof.
  intros Hh He Hf Hp Hev index s2 q v d.
  unfold s2. rewrite (addOperationalFrame_twice_frames name m1 m2 s Hh He Hf).
  fold index.
  set (f := FrameData.Build index (Z.lor m1 m2) _ _).
  set (s3 := set_frames_ (frames_ s ++ [f]) s).
  assert (E : calls (compute time s3) =
              Lock :: (firstn 3 (published (sampled path time s3))
                       ++ flat_map (publish_frame d) (frames_ s ++ [f])
                       ++ snd (coms_loop v (coms_ s) d)) ++ [Unlock]).
  { rewrite (@compute_success _ _ time s3 path Hp Hev). reflexivity. }
  assert (Hin : In f (frames_ s ++ [f]))
    by (apply in_or_app; right; now left).
  split.
  - intros Hb. rewrite <- has_option_lor in Hb.
    pose proof (frame_pose_published d (frames_ s ++ [f]) f Hin Hb) as H.
    unfold f in H at 1 2 3. simpl in H.
    unfold f in Hb. simpl in Hb. rewrite Hb in H.
    rewrite E. right. apply in_or_app. left.
    apply in_or_app. right. apply in_or_app. left. exact H.
  - intros Hb. rewrite <- has_option_lor in Hb.
    destruct (frame_velocity_published d (frames_ s ++ [f]) f Hin Hb)
      as (data & H & Hl & _).
    exists data. split; [|exact Hl].
    unfold f in H at 1. simpl in H.
    unfold f in Hb. simpl in Hb. rewrite Hb in H.
    rewrite E. right. apply in_or_app. left.
    apply in_or_app. right. apply in_or_app. left. exact H.
Qed.

End RegistrationToPublication.

(** * The claims on explicit inputs *)

Import Scenario.

Lemma compute_failure_publishes_nothing_witness :
  result (compute 3%Z (started None))
  = Thrown (logic_error "Path is not set")
  /\ result (compute (-3)%Z ready)
     = Thrown (runtime_error "Could not evaluate the path")
  /\ calls (compute (-3)%Z ready) = [Lock; Unlock].
Proof.
  split; [|split].
  - apply (proj1 (compute_failure_publishes_nothing (S := Z_Scalar) 3%Z (started None))).
    reflexivity.
  - apply (proj1 (proj2 (compute_failure_publishes_nothing (S := Z_Scalar) (-3)%Z ready))
             path); reflexivity.
  - apply (proj2 (proj2 (compute_failure_publishes_nothing (S := Z_Scalar) (-3)%Z ready))
             (runtime_error "Could not evaluate the path")).
    reflexivity.
Defined.

Lemma compute_whole_body_messages_witness :
  path_ whole_body = Some path
  /\ snd (eval path (Eigen_resize (q_ whole_body)
                       (configSize (device_ whole_body))) 3%Z) = true
  /\ (exists rest,
        calls (compute 3%Z whole_body) =
        Lock
        :: Publish (Publisher_on "/hpp/position")
             (Vector [1; 133; 5; 13; 12; 11; 10; 11; 12]%Z)
        :: Publish (Publisher_on "/hpp/velocity")
             (Vector [0; 0; 0; 0; 0; 0; 6; 7; 8]%Z)
        :: Publish (Publisher_on "/hpp/acceleration")
             (Vector [0; 0; 0; 0; 0; 0; 12; 14; 16]%Z)
        :: rest)
  /\ handle_ (fresh (Some path)) = None
  /\ whole_body =
     perform_all
       [Call_initializeRosNode false "hpp" false;
        Call_setJointNames ["root_joint"; "arm"; "wrist"]%string]
       (fresh (Some path))
  /\ handle_ whole_body <> None
  /\ pubQ whole_body <> pubV whole_body
  /\ pubQ whole_body <> pubA whole_body
  /\ pubV whole_body <> pubA whole_body.
Proof.
  assert (Hh : handle_ whole_body <> None) by discriminate.
  pose proof (compute_whole_body_messages (S := Z_Scalar) 3%Z whole_body
                (path := path) eq_refl eq_refl)
    as (_ & Hcalls & _ & _ & _ & _ & _ & Hpub).
  destruct (Hpub (fresh (Some path))
              [Call_initializeRosNode false "hpp" false;
               Call_setJointNames ["root_joint"; "arm"; "wrist"]%string]
              eq_refl eq_refl Hh)
    as (_ & _ & _ & D1 & D2 & D3).
  split; [reflexivity|split; [reflexivity|split; [exact Hcalls|]]].
  split; [reflexivity|split; [reflexivity|split; [exact Hh|]]].
  split; [exact D1|split; [exact D2|exact D3]].
Defined.

(** C2, as it is stated, fails twice.  With the arm and the planar base
    named, the flag is set by joint 4 of the model, the only floating
    base named, and the six first scalars of the position are the
    placement of joint 1, not that of joint 4.  And after [shutdownRos] a
    [compute] still returns, and its three whole-body messages go to one
    and the same shut-down publisher. *)
Lemma whole_body_prefix_is_joint_1_and_channels_may_coincide :
  hasFreeflyer_ planar_base = true
  /\ filter is_floating_base (joints_of device ["arm"; "planar"]%string)
     = [planar_joint]
  /\ joint_id "planar" = 4
  /\ (exists rest,
        calls (compute 3%Z planar_base) =
        Lock
        :: Publish (Publisher_on "/hpp/position")
             (Vector ([1; 133; 5; 13; 12; 11]%Z ++ [10]%Z))
        :: rest)
  /\ placement_prefix
       (forwardKinematics device (q_ (final (compute 3%Z planar_base)))
          (v_ (final (compute 3%Z planar_base)))) 1
     = [1; 133; 5; 13; 12; 11]%Z
  /\ placement_prefix
       (forwardKinematics device (q_ (final (compute 3%Z planar_base)))
          (v_ (final (compute 3%Z planar_base)))) (joint_id "planar")
     = [4; 133; 5; 16; 15; 14]%Z
  /\ [1; 133; 5; 13; 12; 11]%Z <> [4; 133; 5; 16; 15; 14]%Z
  /\ path_ stopped = Some path
  /\ result (compute 3%Z stopped) = Returned tt
  /\ calls (compute 3%Z stopped) =
     [Lock;
      Publish Publisher_invalid
        (Vector [1; 133; 5; 13; 12; 11; 10; 11; 12]%Z);
      Publish Publisher_invalid (Vector [0; 0; 0; 0; 0; 0; 6; 7; 8]%Z);
      Publish Publisher_invalid (Vector [0; 0; 0; 0; 0; 0; 12; 14; 16]%Z);
      Unlock]
  /\ pubQ stopped = pubV stopped
  /\ pubV stopped = pubA stopped.
Proof.
  split; [reflexivity|]. split; [reflexivity|]. split; [reflexivity|].
  split; [eexists; reflexivity|].
  split; [reflexivity|]. split; [reflexivity|].
  split; [discriminate|].
  repeat split.
Qed.

Lemma setJointNames_row_views_witness :
  existsb is_floating_base (joints_of device ["arm"; "wrist"]%string) = false
  /\ RowBlockIndices.nbIndices
       (qView_ (final (setJointNames ["arm"; "wrist"]%string ready))) = 3
  /\ rview (qView_ (final (setJointNames ["arm"; "wrist"]%string ready)))
       [10; 11; 12; 13; 14; 15; 16; 17; 18; 19; 20; 21; 22; 23]%Z
     = [17; 18; 19]%Z
  /\ segment [10; 11; 12; 13; 14; 15; 16; 17; 18; 19]%Z 8 2
     = [18; 19]%Z.
Proof.
  destruct (setJointNames_row_views ["arm"; "wrist"]%string ready)
    as (_ & _ & _ & _ & _ & H).
  destruct (H eq_refl) as (_ & Hn & _ & Hq & _ & Hs & _).
  split; [reflexivity|split; [|split]].
  - rewrite Hn. reflexivity.
  - rewrite Hq. reflexivity.
  - change (segment [10; 11; 12; 13; 14; 15; 16; 17; 18; 19]%Z
              (Joint.rankInConfiguration wrist_joint)
              (Joint.configSize wrist_joint) = [18; 19]%Z).
    rewrite (Hs [10; 11; 12; 13; 14; 15; 16; 17; 18; 19]%Z wrist_joint).
    + reflexivity.
    + simpl. lia.
Defined.

Lemma mutex_held_by_compute_and_shutdown_only_witness :
  handle_ ready <> None
  /\ calls (shutdownRos ready) =
     [Lock; Shutdown (Publisher_on "/hpp/position");
      Shutdown (Publisher_on "/hpp/velocity");
      Shutdown (Publisher_on "/hpp/acceleration"); Unlock]
  /\ handle_ (fresh None) = None
  /\ shutdownRos (fresh None) = (Returned tt, fresh None, [])
  /\ interleaving (calls (compute 3%Z ready)) (calls (shutdownRos ready))
       (calls (shutdownRos ready) ++ calls (compute 3%Z ready))
  /\ admissible false
       (calls (shutdownRos ready) ++ calls (compute 3%Z ready)) = true
  /\ (calls (shutdownRos ready) ++ calls (compute 3%Z ready)
      = calls (compute 3%Z ready) ++ calls (shutdownRos ready)
      \/ calls (shutdownRos ready) ++ calls (compute 3%Z ready)
         = calls (shutdownRos ready) ++ calls (compute 3%Z ready)).
Proof.
  assert (Hh : handle_ ready <> None) by discriminate.
  assert (Hi : interleaving (calls (compute 3%Z ready))
                 (calls (shutdownRos ready))
                 (calls (shutdownRos ready) ++ calls (compute 3%Z ready)))
    by (vm_compute; repeat constructor).
  split; [exact Hh|split; [|split; [reflexivity|split;
    [|split; [exact Hi|split; [reflexivity|]]]]]].
  - exact (proj1 (proj2 (mutex_held_by_compute_and_shutdown_only ready)) Hh).
  - exact (proj1 (proj2 (proj2
             (mutex_held_by_compute_and_shutdown_only (fresh None))))
             eq_refl).
  - exact (proj1 (proj2 (proj2 (proj2
             (mutex_held_by_compute_and_shutdown_only ready))))
             3%Z ready _ Hh Hi eq_refl).
Defined.

(** C5, as it is stated, fails: none of the four reconfiguration calls
    locks the mutex, and the call that [addOperationalFrame] makes can
    happen while a [compute] holds it. *)
Lemma reconfiguration_takes_no_lock :
  ~ In Lock (calls (setJointNames ["arm"; "wrist"]%string ready))
  /\ ~ In Lock (calls (addOperationalFrame "gripper" Position ready))
  /\ ~ In Lock (calls (addCenterOfMass "c" 7 Position ready))
  /\ ~ In Lock (calls (resetTopics ready))
  /\ exists c,
       interleaving (calls (compute 3%Z ready))
         (calls (addOperationalFrame "gripper" Position ready)) c
       /\ admissible false c = true
       /\ c =
          [Lock;
           Publish (Publisher_on "/hpp/position") (Vector []);
           Advertise "/hpp/op_frame/gripper" queue_size false;
           Publish (Publisher_on "/hpp/velocity") (Vector []);
           Publish (Publisher_on "/hpp/acceleration") (Vector []);
           Unlock]
       /\ c <> calls (compute 3%Z ready)
               ++ calls (addOperationalFrame "gripper" Position ready)
       /\ c <> calls (addOperationalFrame "gripper" Position ready)
               ++ calls (compute 3%Z ready).
Proof.
  split; [|split; [|split; [|split]]];
    try (vm_compute; intros H;
         repeat (destruct H as [H|H]; [discriminate H|]); exact H).
  exists [Lock;
          Publish (Publisher_on "/hpp/position") (Vector []);
          Advertise "/hpp/op_frame/gripper" queue_size false;
          Publish (Publisher_on "/hpp/velocity") (Vector []);
          Publish (Publisher_on "/hpp/acceleration") (Vector []);
          Unlock].
  split; [|split; [|split; [reflexivity|split]]].
  - vm_compute. repeat constructor.
  - reflexivity.
  - vm_compute. discriminate.
  - vm_compute. discriminate.
Qed.

Lemma addOperationalFrame_twice_merges_witness :
  handle_ ready <> None
  /\ existFrame (device_ ready) "gripper" = true
  /\ has_frame (getFrameId (device_ ready) "gripper") (frames_ ready) = false
  /\ length (filter (fun f => Nat.eqb (FrameData.index f) 4)
               (frames_ (after (addOperationalFrame "gripper" Derivative)
                           (after (addOperationalFrame "gripper" Position)
                              ready)))) = 1.
Proof.
  assert (Hh : handle_ ready <> None) by discriminate.
  split; [exact Hh|split; [reflexivity|split; [reflexivity|]]].
  exact (proj1 (proj2 (proj2 (proj2
           (addOperationalFrame_twice_merges "gripper" Position Derivative
              ready Hh eq_refl eq_refl))))).
Defined.

Lemma addCenterOfMass_same_handle_witness :
  handle_ ready <> None
  /\ has_com 7 (coms_ ready) = false
  /\ coms_ (after (addCenterOfMass "torso" 7 Derivative)
              (after (addCenterOfMass "body" 7 Position) ready))
     = [COM.Build 7 PositionAndDerivative
          (Publisher_on "/hpp/com/torso")
          (Publisher_on "/hpp/velocity/com/torso")].
Proof.
  assert (Hh : handle_ ready <> None) by discriminate.
  split; [exact Hh|split; [reflexivity|]].
  exact (proj1 (proj2 (proj2
           (addCenterOfMass_same_handle "body" "torso" 7 Position Derivative
              ready Hh eq_refl)))).
Defined.

Lemma addOperationalFrame_failures_witness :
  handle_ (fresh None) = None
  /\ addOperationalFrame "gripper" Position (fresh None)
     = (Thrown (logic_error "Initialize ROS first"), fresh None, [])
  /\ handle_ ready <> None
  /\ existFrame (device_ ready) "elbow" = false
  /\ addOperationalFrame "elbow" Position ready = (Returned false, ready, []).
Proof.
  assert (Hh : handle_ ready <> None) by discriminate.
  split; [reflexivity|split; [|split; [exact Hh|split; [reflexivity|]]]].
  - exact (proj1 (addOperationalFrame_failures "gripper" Position
                    (fresh None)) eq_refl).
  - exact (proj2 (addOperationalFrame_failures "elbow" Position ready)
             Hh eq_refl).
Defined.

Lemma freeflyer_read_from_joint_1_witness :
  path_ whole_body = Some path
  /\ hasFreeflyer_ whole_body = true
  /\ (exists rest,
        calls (compute 3%Z whole_body) =
        Lock
        :: Publish (Publisher_on "/hpp/position")
             (Vector ([1; 133; 5]%Z ++ [13; 12; 11]%Z ++ [10; 11; 12]%Z))
        :: rest)
  /\ setJointNames ["root_joint"; "arm"]%string ready
     = setJointNames ["arm"; "planar"]%string ready.
Proof.
  split; [reflexivity|split; [reflexivity|]].
  pose proof (freeflyer_read_from_joint_1 (S := Z_Scalar) 3%Z whole_body
                (path := path) eq_refl eq_refl eq_refl) as [H1 H2].
  split.
  - exact H1.
  - apply H2; reflexivity.
Defined.

(** C3 on the code.  A centre of mass registered for Position and then
    for Acceleration has mode Position|Acceleration, which is none of the
    four values of the [switch] of [COM::compute]: [com->compute] is not
    called, and the position that [compute] publishes is the one the data
    held before, not the one computed for the sample, which the same
    target publishes when registered for Position alone.  The same holds
    for the velocity with Derivative|Acceleration. *)
Theorem COM_switch_misses_modes_with_Acceleration :
  map COM.option (coms_ com_PA) = [Z.lor Position Acceleration]
  /\ filter (fun e => negb (is_Lock e)) (calls (compute 3%Z com_PA)) =
     [Publish (Publisher_on "/hpp/position") (Vector []);
      Publish (Publisher_on "/hpp/velocity") (Vector []);
      Publish (Publisher_on "/hpp/acceleration") (Vector []);
      Publish (Publisher_on "/hpp/com/c") (Vector3 0 0 0)%Z;
      Unlock]
  /\ filter (fun e => negb (is_Lock e)) (calls (compute 3%Z com_P)) =
     [Publish (Publisher_on "/hpp/position") (Vector []);
      Publish (Publisher_on "/hpp/velocity") (Vector []);
      Publish (Publisher_on "/hpp/acceleration") (Vector []);
      Publish (Publisher_on "/hpp/com/c") (Vector3 7 133 1)%Z;
      Unlock]
  /\ map COM.option (coms_ com_DA) = [Z.lor Derivative Acceleration]
  /\ nth 4 (calls (compute 3%Z com_DA)) Lock =
     Publish (Publisher_on "/hpp/velocity/com/c") (Vector3 0 0 0)%Z
  /\ nth 4 (calls (compute 3%Z com_D)) Lock =
     Publish (Publisher_on "/hpp/velocity/com/c") (Vector3 66 132 198)%Z
  /\ (forall d, COM_compute (COM.make 7 (Z.lor Position Acceleration)) d = d)
  /\ (forall d,
        COM_compute_by_bits (COM.make 7 (Z.lor Position Acceleration)) d
        = com_compute 7 d pinocchio_COM).
Proof.
  repeat split.
Qed.

(** * The further properties on explicit inputs *)

Lemma compute_changes_buffers_only_witness :
  path_ ready = Some path
  /\ q_ (final (compute 3%Z ready))
     = [3; 4; 5; 6; 7; 8; 9; 10; 11; 12; 13; 14; 15; 16]%Z
  /\ path_ (started None) = None
  /\ final (compute 3%Z (started None)) = started None.
Proof.
  pose proof (compute_changes_buffers_only (S := Z_Scalar) 3%Z ready)
    as (_ & _ & H).
  destruct (H path eq_refl) as (_ & _ & _ & Hq & _).
  split; [reflexivity|split; [|split; [reflexivity|]]].
  - rewrite Hq. reflexivity.
  - exact (proj1 (proj2 (compute_changes_buffers_only (S := Z_Scalar) 3%Z
                           (started None))) eq_refl).
Defined.

Lemma compute_publishes_once_per_channel_witness :
  path_ with_targets = Some path
  /\ snd (eval path (Eigen_resize (q_ with_targets)
                       (configSize (device_ with_targets))) 3%Z) = true
  /\ length (filter is_Publish (calls (compute 3%Z with_targets))) = 6.
Proof.
  split; [reflexivity|split; [reflexivity|]].
  exact (proj1 (proj2 (compute_publishes_once_per_channel (S := Z_Scalar)
                         3%Z with_targets (path := path)
                         eq_refl eq_refl))).
Defined.

Lemma calls_keep_the_object_consistent_witness :
  handle_ (fresh (Some path)) = None
  /\ consistent (perform_all session (fresh (Some path)))
  /\ map FrameData.index (frames_ (perform_all session (fresh (Some path))))
     = [4]
  /\ map COM.com (coms_ (perform_all session (fresh (Some path)))) = [7].
Proof.
  split; [reflexivity|split; [|split; reflexivity]].
  exact (proj2 calls_keep_the_object_consistent (fresh (Some path)) session
           eq_refl eq_refl eq_refl).
Defined.

Lemma compute_publishes_on_advertised_publishers_witness :
  handle_ (fresh (Some path)) = None
  /\ handle_ (perform_all session (fresh (Some path))) <> None
  /\ Forall (fun e => on_advertised e = true)
       (calls (compute 3%Z (perform_all session (fresh (Some path))))).
Proof.
  assert (Hh : handle_ (perform_all session (fresh (Some path))) <> None)
    by discriminate.
  split; [reflexivity|split; [exact Hh|]].
  exact (compute_publishes_on_advertised_publishers (S := Z_Scalar)
           (fresh (Some path)) session 3%Z eq_refl eq_refl eq_refl Hh).
Defined.

Lemma addOperationalFrame_advertises_the_widened_mode_witness :
  handle_ ready <> None
  /\ existFrame (device_ ready) "gripper" = true
  /\ calls (addOperationalFrame "gripper" Derivative
              (after (addOperationalFrame "gripper" Position) ready))
     = [Advertise "/hpp/op_frame/gripper" queue_size false;
        Advertise "/hpp/velocity/op_frame/gripper" queue_size false]
  /\ calls (addOperationalFrame "gripper" Acceleration ready) = [].
Proof.
  assert (Hh : handle_ ready <> None) by discriminate.
  assert (Hh' : handle_ (after (addOperationalFrame "gripper" Position)
                           ready) <> None) by discriminate.
  split; [exact Hh|split; [reflexivity|split]].
  - exact (proj1 (addOperationalFrame_advertises_the_widened_mode
                    "gripper" Derivative
                    (after (addOperationalFrame "gripper" Position) ready)
                    Hh' eq_refl)).
  - exact (proj2 (proj2 (addOperationalFrame_advertises_the_widened_mode
                           "gripper" Acceleration ready Hh eq_refl))
             eq_refl eq_refl).
Defined.

Lemma addCenterOfMass_error_and_frame_witness :
  handle_ (fresh None) = None
  /\ addCenterOfMass "c" 7 Position (fresh None)
     = (Thrown (logic_error "Initialize ROS first"), fresh None, [])
  /\ handle_ com_P <> None
  /\ has_com 7 (coms_ com_P) = true
  /\ length (coms_ (final (addCenterOfMass "d" 7 Derivative com_P))) = 1.
Proof.
  assert (Hh : handle_ com_P <> None) by discriminate.
  split; [reflexivity|split; [|split; [exact Hh|split; [reflexivity|]]]].
  - exact (proj1 (addCenterOfMass_error_and_frame "c" 7 Position
                    (fresh None)) eq_refl).
  - exact (proj1 (proj2 (proj2 (proj2 (addCenterOfMass_error_and_frame
                                         "d" 7 Derivative com_P) Hh)))
             eq_refl).
Defined.

Lemma shutdownRos_tears_down_witness :
  handle_ with_targets <> None
  /\ frames_ (final (shutdownRos with_targets)) = []
  /\ coms_ (final (shutdownRos with_targets)) = []
  /\ length (filter is_Publish
               (calls (compute 3%Z (final (shutdownRos with_targets))))) = 3.
Proof.
  assert (Hh : handle_ with_targets <> None) by discriminate.
  pose proof (shutdownRos_tears_down with_targets Hh)
    as (_ & _ & Hf & Hc & _ & _ & _ & _ & _ & _ & _ & _ & _ & _ & _ & _
        & Hn).
  split; [exact Hh|split; [exact Hf|split; [exact Hc|]]].
  exact (Hn 3%Z path eq_refl eq_refl).
Defined.

Lemma registration_after_reset_starts_afresh_witness :
  handle_ ready <> None
  /\ existFrame (device_ ready) "gripper" = true
  /\ frames_
       (final (addOperationalFrame "gripper" Derivative
                 (final (resetTopics
                           (final (addOperationalFrame "gripper" Position
                                     ready))))))
     = [FrameData.Build 4 Derivative Publisher_invalid
          (Publisher_on "/hpp/velocity/op_frame/gripper")].
Proof.
  assert (Hh : handle_ ready <> None) by discriminate.
  split; [exact Hh|split; [reflexivity|]].
  exact (proj1 (registration_after_reset_starts_afresh "gripper" "c" 7
                  Position Derivative ready Hh eq_refl)).
Defined.

Lemma setJointNames_replaces_witness :
  final (setJointNames ["arm"]%string
           (final (setJointNames ["root_joint"; "wrist"]%string ready)))
  = final (setJointNames ["arm"]%string ready)
  /\ path_ ready = Some path
  /\ exists rest,
       calls (compute 3%Z (final (setJointNames [] ready))) =
       Lock :: Publish (Publisher_on "/hpp/position") (Vector [])
            :: Publish (Publisher_on "/hpp/velocity") (Vector [])
            :: Publish (Publisher_on "/hpp/acceleration") (Vector [])
            :: rest.
Proof.
  split; [|split; [reflexivity|]].
  - exact (proj1 (setJointNames_replaces ["root_joint"; "wrist"]%string
                    ["arm"]%string ready)).
  - pose proof (setJointNames_replaces [] [] ready) as (_ & _ & _ & _ & H).
    exact (H 3%Z path eq_refl eq_refl).
Defined.

Lemma topics_of_different_kinds_differ_witness :
  "gripper"%string <> "base"%string
  /\ ~ In "/hpp/op_frame/gripper"%string
       (advertised_topics
          (snd (FrameData_initPublishers "/hpp/" "base"
                  (FrameData.make 2 PositionAndDerivative))))
  /\ ~ In "/hpp/velocity"%string
       (advertised_topics
          (snd (COM_initPublishers "/hpp/" "c"
                  (COM.make 7 PositionAndDerivative)))).
Proof.
  assert (Hn : "gripper"%string <> "base"%string) by discriminate.
  pose proof (topics_of_different_kinds_differ false "hpp" false
                (fresh None) "gripper" "base"
                (FrameData.make 4 PositionAndDerivative)
                (FrameData.make 2 PositionAndDerivative)
                (COM.make 7 PositionAndDerivative)
                (COM.make 7 PositionAndDerivative))
    as (_ & _ & _ & Hw & _ & Hf & _).
  split; [exact Hn|split].
  - apply (Hf Hn). now left.
  - pose proof (topics_of_different_kinds_differ false "hpp" false
                  (fresh None) "gripper" "c"
                  (FrameData.make 4 PositionAndDerivative)
                  (FrameData.make 2 PositionAndDerivative)
                  (COM.make 7 PositionAndDerivative)
                  (COM.make 7 PositionAndDerivative))
      as (_ & _ & _ & Hw' & _).
    apply (Hw' "/hpp/velocity"%string). right. now left.
Defined.

Lemma addCenterOfMass_same_name_shares_topic_witness :
  handle_ ready <> None
  /\ 7 <> 8
  /\ map COM.pubQ
       (coms_ (final (addCenterOfMass "c" 8 Position
                        (final (addCenterOfMass "c" 7 Position ready)))))
     = [Publisher_on "/hpp/com/c"; Publisher_on "/hpp/com/c"].
Proof.
  assert (Hh : handle_ ready <> None) by discriminate.
  assert (Hn : 7 <> 8) by discriminate.
  split; [exact Hh|split; [exact Hn|]].
  destruct (addCenterOfMass_same_name_shares_topic "c" Position Position
              ready Hh Hn eq_refl eq_refl eq_refl eq_refl)
    as (t1 & t2 & E & _ & _ & _ & _ & H1 & H2).
  rewrite E. simpl. rewrite H2, H1. reflexivity.
Defined.

Lemma publish_com_named_modes_witness :
  COM.option (COM.make 7 Acceleration) = Acceleration
  /\ publish_com [1%Z] (COM.make 7 Acceleration)
       (forwardKinematics device [1%Z] [1%Z])
     = (forwardKinematics device [1%Z] [1%Z], [])
  /\ snd (publish_com [1%Z]
            (COM.Build 7 Position (Publisher_on "/hpp/com/c")
               Publisher_invalid)
            (forwardKinematics device [5%Z] [1%Z]))
     = [Publish (Publisher_on "/hpp/com/c") (Vector3 7 5 1)%Z].
Proof.
  split; [reflexivity|split].
  - exact (proj2 (proj2 (proj2
             (publish_com_named_modes (S := Z_Scalar) [1%Z]
                (COM.make 7 Acceleration)
                (forwardKinematics device [1%Z] [1%Z])))) eq_refl).
  - rewrite (proj1 (publish_com_named_modes (S := Z_Scalar) [1%Z]
                      (COM.Build 7 Position (Publisher_on "/hpp/com/c")
                         Publisher_invalid)
                      (forwardKinematics device [5%Z] [1%Z])) eq_refl).
    reflexivity.
Defined.

Lemma widened_frame_is_published_witness :
  handle_ ready <> None
  /\ existFrame (device_ ready) "gripper" = true
  /\ path_ ready = Some path
  /\ In (Publish (Publisher_on "/hpp/op_frame/gripper")
           (Transform (4, 133, 6)%Z (1, 24, 0, 0)%Z))
        (calls (compute 3%Z
                  (final (addOperationalFrame "gripper" Derivative
                            (final (addOperationalFrame "gripper" Position
                                      ready)))))).
Proof.
  assert (Hh : handle_ ready <> None) by discriminate.
  split; [exact Hh|split; [reflexivity|split; [reflexivity|]]].
  exact (proj1 (widened_frame_is_published (S := Z_Scalar) "gripper"
                  Position Derivative 3%Z ready (path := path)
                  Hh eq_refl eq_refl eq_refl eq_refl) eq_refl).
Defined.
